(** * V-tail glide simulator: the integrator of [core_sim.py]

    A shallow embedding of [src/core_sim.py] and the properties its
    specification states about it.

    Numbers.  Python's [float] is modelled by the real numbers [R]:
    rounding, infinities and NaN are outside the model.  [max], [min],
    [abs], [math.sqrt], [math.sin], [math.cos], [x ** n] are [Rmax],
    [Rmin], [Rabs], [sqrt], [sin], [cos], [x ^ n]; [math.hypot],
    [math.atan2], [math.radians], [math.degrees] and the float [%] are
    defined below.  Comparisons that the code branches on are boolean
    functions ([rltb], [rleb]).

    Effects.  [step_sim] mutates its [SimState] argument in place and
    returns [None]; here it takes the state and returns the new one.
    [random.random()] reads and advances the process-wide generator;
    the generator is a [RandomSource] threaded through the step.

    Partial operations.  [math.sqrt] raises on a negative argument and
    [/] on a zero divisor; the model uses the total [sqrt] and [Rdiv],
    and the lemmas [energy_sqrt_defined] and [bank_frac_div_defined]
    show that the code never applies them outside their domain.

    Callers.  [game_3d_opengl.py] (keyboard and the state handling of
    its main loop) is in module [Game]; [dashboard_streamlit.py] (the
    scripted run [run_sim] and its summary) is in module [Dashboard],
    its [while] loop with a bound on the number of iterations.

    Rounding.  Where a property depends on how binary64 rounds, the
    arithmetic concerned is also embedded over Rocq's primitive floats
    (module [F64]) and evaluated there. *)

From Stdlib Require Import Reals Lra Lia List Bool Arith ZArith.
From Stdlib Require Floats.
Import ListNotations.

Open Scope R_scope.

(** ** Boolean comparisons on floats *)

Definition rltb (x y : R) : bool := if Rlt_dec x y then true else false.
Definition rleb (x y : R) : bool := if Rle_dec x y then true else false.
Definition rgtb (x y : R) : bool := rltb y x.

(** ** The [math] functions the integrator uses *)

Module PyMath.

Definition hypot (x y : R) : R := sqrt (x * x + y * y).

Definition radians (d : R) : R := d * PI / 180.

Definition degrees (r : R) : R := r * 180 / PI.

(** [math.atan2 y x], all quadrants. *)
Definition atan2 (y x : R) : R :=
  if Rlt_dec 0 x then atan (y / x)
  else if Rlt_dec x 0 then
    (if Rle_dec 0 y then atan (y / x) + PI else atan (y / x) - PI)
  else if Rlt_dec 0 y then PI / 2
  else if Rlt_dec y 0 then - (PI / 2)
  else 0.

(** Float [x % m]: the result has the sign of [m]. *)
Definition fmod (x m : R) : R := x - IZR (Int_part (x / m)) * m.

End PyMath.

(** ** [clamp] and [vlen] *)

Definition clamp (x lo hi : R) : R := Rmax lo (Rmin hi x).

Definition vlen (x y : R) : R := PyMath.hypot x y.

(** ** V-tail ruddervator mixer *)

Definition ruddervator_mix (pitch_cmd yaw_cmd : R) : R * R * R * R :=
  let pitch_cmd := clamp pitch_cmd (-1) 1 in
  let yaw_cmd := clamp yaw_cmd (-1) 1 in
  let left := clamp (pitch_cmd + yaw_cmd) (-1) 1 in
  let right := clamp (pitch_cmd - yaw_cmd) (-1) 1 in
  let pitch_eff := clamp (0.5 * (left + right)) (-1) 1 in
  let yaw_eff := clamp (0.5 * (left - right)) (-1) 1 in
  (left, right, pitch_eff, yaw_eff).

(** The four components of the mixer's result. *)
Definition mix_left (pc yc : R) : R := fst (fst (fst (ruddervator_mix pc yc))).
Definition mix_right (pc yc : R) : R := snd (fst (fst (ruddervator_mix pc yc))).
Definition mix_pitch_eff (pc yc : R) : R := snd (fst (ruddervator_mix pc yc)).
Definition mix_yaw_eff (pc yc : R) : R := snd (ruddervator_mix pc yc).

(** ** Parameters, state, history samples and the impact record *)

Record SimParams : Type := mkParams {
  g : R;
  start_alt_m : R;
  start_x_m : R;
  start_y_m : R;
  start_heading_deg : R;
  target_x_m : R;
  target_y_m : R;
  target_radius_m : R;
  mass_kg : R;
  v_min : R;
  v_max : R;
  v_trim : R;
  gr_min : R;
  gr_max : R;
  stall_pitch_eff : R;
  stall_v : R;
  stall_gr_factor : R;
  stall_sink_boost : R;
  pitch_response_per_s : R;
  yaw_rate_deg_s : R;
  bank_max_deg : R;
  bank_response_per_s : R;
  bank_sink_factor : R;
  drag_k : R;
  wind_x_mps : R;
  wind_y_mps : R;
  gust_mps : R;
  ground_alt_m : R
}.

(** The defaults of the [SimParams] dataclass. *)
Definition default_params : SimParams := {|
  g := 9.81;
  start_alt_m := 900;
  start_x_m := 0;
  start_y_m := 0;
  start_heading_deg := 0;
  target_x_m := 2400;
  target_y_m := 700;
  target_radius_m := 60;
  mass_kg := 1100;
  v_min := 16;
  v_max := 60;
  v_trim := 26;
  gr_min := 4;
  gr_max := 18;
  stall_pitch_eff := 0.75;
  stall_v := 18;
  stall_gr_factor := 0.55;
  stall_sink_boost := 1.35;
  pitch_response_per_s := 1.6;
  yaw_rate_deg_s := 55;
  bank_max_deg := 40;
  bank_response_per_s := 2;
  bank_sink_factor := 0.30;
  drag_k := 0.012;
  wind_x_mps := 2.2;
  wind_y_mps := -1;
  gust_mps := 0.35;
  ground_alt_m := 0
|}.

(** One entry of [SimState.hist] (a dict with these sixteen keys). *)
Record HistSample : Type := mkSample {
  h_t_s : R;
  h_x_m : R;
  h_y_m : R;
  h_alt_m : R;
  h_v_air_mps : R;
  h_heading_deg : R;
  h_pitch_cmd : R;
  h_yaw_cmd : R;
  h_left_rv : R;
  h_right_rv : R;
  h_pitch_eff : R;
  h_yaw_eff : R;
  h_bank_deg : R;
  h_miss_m : R;
  h_stall : R;
  h_gr : R
}.

(** The dict stored in [SimState.impact]. *)
Record Impact : Type := mkImpact {
  i_t_s : R;
  i_x_m : R;
  i_y_m : R;
  i_miss_m : R;
  i_on_target : bool
}.

Record SimState : Type := mkState {
  x_m : R;
  y_m : R;
  alt_m : R;
  heading_rad : R;
  pitch_cmd : R;
  yaw_cmd : R;
  left_rv : R;
  right_rv : R;
  pitch_eff : R;
  yaw_eff : R;
  bank_deg : R;
  v_air_mps : R;
  t_s : R;
  alive : bool;
  impact : option Impact;
  hist : list HistSample
}.

Definition reset_state (p : SimParams) : SimState := {|
  x_m := start_x_m p;
  y_m := start_y_m p;
  alt_m := start_alt_m p;
  heading_rad := PyMath.radians (start_heading_deg p);
  pitch_cmd := 0.15;
  yaw_cmd := 0;
  left_rv := 0;
  right_rv := 0;
  pitch_eff := 0.15;
  yaw_eff := 0;
  bank_deg := 0;
  v_air_mps := v_trim p;
  t_s := 0;
  alive := true;
  impact := None;
  hist := []
|}.

Definition compute_glide_ratio (p : SimParams) (pitch_eff : R) : R :=
  let t := (pitch_eff + 1) * 0.5 in
  gr_min p + (gr_max p - gr_min p) * t.

(** ** The process-wide random generator

    [random.random()] returns the next float of the generator's
    sequence and advances it.  Nothing in the integrator depends on
    how the sequence is produced, so a source is any sequence of
    draws together with the position reached. *)

Record RandomSource : Type := mkSource {
  rs_draws : nat -> R;
  rs_pos : nat
}.

Definition random_random (r : RandomSource) : R * RandomSource :=
  (rs_draws r (rs_pos r), {| rs_draws := rs_draws r; rs_pos := S (rs_pos r) |}).

(** ** [step_sim], block by block

    Each definition below is one block of the body of [step_sim], in
    source order; [step_sim] chains them. *)

(** Lines 149-164: pilot commands, mixer, pitch lag, bank proxy. *)
Definition update_controls (p : SimParams) (s : SimState)
    (dt pitch_in yaw_in : R) : SimState :=
  let pitch_cmd' := clamp (pitch_cmd s + pitch_in * 0.9 * dt) (-1) 1 in
  let yaw_cmd' := clamp yaw_in (-1) 1 in
  let '(left_rv', right_rv', pitch_eff_cmd, yaw_eff_cmd) :=
    ruddervator_mix pitch_cmd' yaw_cmd' in
  let a := clamp (pitch_response_per_s p * dt) 0 1 in
  let pitch_eff' := pitch_eff s + (pitch_eff_cmd - pitch_eff s) * a in
  let yaw_eff' := yaw_eff_cmd in
  let bank_target := clamp (Rabs yaw_eff' * bank_max_deg p) 0 (bank_max_deg p) in
  let b := clamp (bank_response_per_s p * dt) 0 1 in
  let bank_deg' := bank_deg s + (bank_target - bank_deg s) * b in
  {| x_m := x_m s; y_m := y_m s; alt_m := alt_m s;
     heading_rad := heading_rad s;
     pitch_cmd := pitch_cmd'; yaw_cmd := yaw_cmd';
     left_rv := left_rv'; right_rv := right_rv';
     pitch_eff := pitch_eff'; yaw_eff := yaw_eff';
     bank_deg := bank_deg';
     v_air_mps := v_air_mps s; t_s := t_s s;
     alive := alive s; impact := impact s; hist := hist s |}.

(** Line 170: the local [stall], read off the state after
    [update_controls] (airspeed not yet updated). *)
Definition stall_flag (p : SimParams) (s : SimState) : bool :=
  rgtb (pitch_eff s) (stall_pitch_eff p) || rltb (v_air_mps s) (stall_v p).

(** Lines 167 and 171-172: the local [gr]. *)
Definition glide_ratio (p : SimParams) (s : SimState) : R :=
  let gr := compute_glide_ratio p (pitch_eff s) in
  if stall_flag p s then gr * stall_gr_factor p else gr.

(** Line 176: the local [gamma]. *)
Definition flight_path_angle (p : SimParams) (s : SimState) : R :=
  PyMath.atan2 1 (Rmax (glide_ratio p s) 0.1).

(** Line 183: the local [bank_frac]. *)
Definition bank_fraction (p : SimParams) (s : SimState) : R :=
  if rgtb (bank_max_deg p) 0 then clamp (bank_deg s / bank_max_deg p) 0 1 else 0.

(** Lines 179 and 184-187: the local [sink]. *)
Definition sink_rate (p : SimParams) (s : SimState) : R :=
  let sink := v_air_mps s * sin (flight_path_angle p s) in
  let sink := sink * (1 + bank_sink_factor p * bank_fraction p s ^ 2) in
  if stall_flag p s then sink * stall_sink_boost p else sink.

(** Line 180: the local [fwd]. *)
Definition fwd_speed (p : SimParams) (s : SimState) : R :=
  v_air_mps s * cos (flight_path_angle p s).

(** Lines 189-210: heading, wind with gust, position and altitude. *)
Definition update_kinematics (p : SimParams) (s : SimState)
    (dt fwd sink : R) (rng : RandomSource) : SimState * RandomSource :=
  let yaw_rate := PyMath.radians (yaw_rate_deg_s p) * yaw_eff s in
  let heading' := heading_rad s + yaw_rate * dt in
  let (u1, rng1) := random_random rng in
  let gust_x := (u1 * 2 - 1) * gust_mps p in
  let (u2, rng2) := random_random rng1 in
  let gust_y := (u2 * 2 - 1) * gust_mps p in
  let wind_x := wind_x_mps p + gust_x in
  let wind_y := wind_y_mps p + gust_y in
  let vx_air := fwd * cos heading' in
  let vy_air := fwd * sin heading' in
  let vx := vx_air + wind_x in
  let vy := vy_air + wind_y in
  ({| x_m := x_m s + vx * dt; y_m := y_m s + vy * dt;
      alt_m := alt_m s - sink * dt;
      heading_rad := heading';
      pitch_cmd := pitch_cmd s; yaw_cmd := yaw_cmd s;
      left_rv := left_rv s; right_rv := right_rv s;
      pitch_eff := pitch_eff s; yaw_eff := yaw_eff s;
      bank_deg := bank_deg s;
      v_air_mps := v_air_mps s; t_s := t_s s;
      alive := alive s; impact := impact s; hist := hist s |}, rng2).

(** Lines 215-226: the local [kin], from the altitude already
    integrated and the airspeed not yet updated. *)
Definition kinetic_term (p : SimParams) (s : SimState) (dt : R) : R :=
  let e := g p * alt_m s + 0.5 * v_air_mps s ^ 2 in
  let e := e - drag_k p * v_air_mps s ^ 3 * dt in
  let e := Rmax 0 e in
  Rmax 0 (e - g p * alt_m s).

(** Lines 227-231: airspeed from [kin], then the clock. *)
Definition update_energy (p : SimParams) (s : SimState) (dt : R) : SimState :=
  let kin := kinetic_term p s dt in
  let v := sqrt (2 * kin) in
  let v := clamp v (v_min p) (v_max p) in
  {| x_m := x_m s; y_m := y_m s; alt_m := alt_m s;
     heading_rad := heading_rad s;
     pitch_cmd := pitch_cmd s; yaw_cmd := yaw_cmd s;
     left_rv := left_rv s; right_rv := right_rv s;
     pitch_eff := pitch_eff s; yaw_eff := yaw_eff s;
     bank_deg := bank_deg s;
     v_air_mps := v; t_s := t_s s + dt;
     alive := alive s; impact := impact s; hist := hist s |}.

(** [s.hist[-1]], when there is one. *)
Fixpoint hist_last (h : list HistSample) : option HistSample :=
  match h with
  | [] => None
  | [x] => Some x
  | _ :: tl => hist_last tl
  end.

(** Line 234: the sampling test. *)
Definition sample_due (s : SimState) : bool :=
  match hist_last (hist s) with
  | None => true
  | Some l => rgtb (t_s s - h_t_s l) 0.10
  end.

(** Lines 235-255: the dict appended to the history. *)
Definition make_sample (p : SimParams) (s : SimState)
    (stall : bool) (gr : R) : HistSample :=
  let dx := x_m s - target_x_m p in
  let dy := y_m s - target_y_m p in
  let miss := PyMath.hypot dx dy in
  {| h_t_s := t_s s; h_x_m := x_m s; h_y_m := y_m s; h_alt_m := alt_m s;
     h_v_air_mps := v_air_mps s;
     h_heading_deg := PyMath.fmod (PyMath.degrees (heading_rad s)) 360;
     h_pitch_cmd := pitch_cmd s; h_yaw_cmd := yaw_cmd s;
     h_left_rv := left_rv s; h_right_rv := right_rv s;
     h_pitch_eff := pitch_eff s; h_yaw_eff := yaw_eff s;
     h_bank_deg := bank_deg s;
     h_miss_m := miss;
     h_stall := if stall then 1 else 0;
     h_gr := gr |}.

(** Lines 234-255: history sampling. *)
Definition record_history (p : SimParams) (s : SimState)
    (stall : bool) (gr : R) : SimState :=
  if sample_due s then
    {| x_m := x_m s; y_m := y_m s; alt_m := alt_m s;
       heading_rad := heading_rad s;
       pitch_cmd := pitch_cmd s; yaw_cmd := yaw_cmd s;
       left_rv := left_rv s; right_rv := right_rv s;
       pitch_eff := pitch_eff s; yaw_eff := yaw_eff s;
       bank_deg := bank_deg s;
       v_air_mps := v_air_mps s; t_s := t_s s;
       alive := alive s; impact := impact s;
       hist := hist s ++ [make_sample p s stall gr] |}
  else s.

(** Lines 258-268: impact check. *)
Definition impact_check (p : SimParams) (s : SimState) : SimState :=
  if rleb (alt_m s) (ground_alt_m p) then
    let miss := PyMath.hypot (x_m s - target_x_m p) (y_m s - target_y_m p) in
    {| x_m := x_m s; y_m := y_m s; alt_m := ground_alt_m p;
       heading_rad := heading_rad s;
       pitch_cmd := pitch_cmd s; yaw_cmd := yaw_cmd s;
       left_rv := left_rv s; right_rv := right_rv s;
       pitch_eff := pitch_eff s; yaw_eff := yaw_eff s;
       bank_deg := bank_deg s;
       v_air_mps := v_air_mps s; t_s := t_s s;
       alive := false;
       impact := Some {| i_t_s := t_s s; i_x_m := x_m s; i_y_m := y_m s;
                         i_miss_m := miss;
                         i_on_target := rleb miss (target_radius_m p) |};
       hist := hist s |}
  else s.

(** [step_sim(p, s, dt, pitch_in, yaw_in)]: the state after the call
    and the generator after the call. *)
Definition step_sim (p : SimParams) (s : SimState) (dt pitch_in yaw_in : R)
    (rng : RandomSource) : SimState * RandomSource :=
  if negb (alive s) then (s, rng)
  else
    let s1 := update_controls p s dt pitch_in yaw_in in
    let gr := glide_ratio p s1 in
    let stall := stall_flag p s1 in
    let sink := sink_rate p s1 in
    let fwd := fwd_speed p s1 in
    let (s2, rng') := update_kinematics p s1 dt fwd sink rng in
    let s3 := update_energy p s2 dt in
    let s4 := record_history p s3 stall gr in
    (impact_check p s4, rng').

(** ** A driver: one [step_sim] call per tick *)

Record Tick : Type := mkTick {
  tk_dt : R;
  tk_pitch : R;
  tk_yaw : R
}.

Definition tick (p : SimParams) (w : SimState * RandomSource) (k : Tick)
    : SimState * RandomSource :=
  step_sim p (fst w) (tk_dt k) (tk_pitch k) (tk_yaw k) (snd w).

Definition run (p : SimParams) (w : SimState * RandomSource)
    (ticks : list Tick) : SimState * RandomSource :=
  fold_left (tick p) ticks w.

(** The state and the altitude just after the kinematics update of a
    step (before the energy update, sampling and impact check). *)
Definition after_kinematics (p : SimParams) (s : SimState)
    (dt pitch_in yaw_in : R) (rng : RandomSource) : SimState :=
  let s1 := update_controls p s dt pitch_in yaw_in in
  fst (update_kinematics p s1 dt (fwd_speed p s1) (sink_rate p s1) rng).

(** The generator after the two draws of one live step. *)
Definition after_draws (rng : RandomSource) : RandomSource :=
  snd (random_random (snd (random_random rng))).

(** The state of a step when it reaches the impact check. *)
Definition before_impact (p : SimParams) (s : SimState)
    (dt pitch_in yaw_in : R) (rng : RandomSource) : SimState :=
  let s1 := update_controls p s dt pitch_in yaw_in in
  record_history p
    (update_energy p (after_kinematics p s dt pitch_in yaw_in rng) dt)
    (stall_flag p s1) (glide_ratio p s1).

(** A generator that returns [u] at every draw. *)
Definition const_source (u : R) : RandomSource :=
  {| rs_draws := fun _ => u; rs_pos := 0 |}.

(** A state after impact under [default_params]: on the ground at the
    centre of the target, 300 s into the flight. *)
Definition landed_example : SimState :=
  {| x_m := 2400; y_m := 700; alt_m := 0; heading_rad := 0;
     pitch_cmd := 0.15; yaw_cmd := 0; left_rv := 0.15; right_rv := 0.15;
     pitch_eff := 0.15; yaw_eff := 0; bank_deg := 0;
     v_air_mps := 26; t_s := 300;
     alive := false;
     impact := Some {| i_t_s := 300; i_x_m := 2400; i_y_m := 700;
                       i_miss_m := 0; i_on_target := true |};
     hist := [] |}.

(** [default_params] without wind and gusts. *)
Definition calm_params : SimParams :=
  {| g := 9.81; start_alt_m := 900; start_x_m := 0; start_y_m := 0;
     start_heading_deg := 0;
     target_x_m := 2400; target_y_m := 700; target_radius_m := 60;
     mass_kg := 1100; v_min := 16; v_max := 60; v_trim := 26;
     gr_min := 4; gr_max := 18;
     stall_pitch_eff := 0.75; stall_v := 18;
     stall_gr_factor := 0.55; stall_sink_boost := 1.35;
     pitch_response_per_s := 1.6; yaw_rate_deg_s := 55;
     bank_max_deg := 40; bank_response_per_s := 2; bank_sink_factor := 0.30;
     drag_k := 0.012;
     wind_x_mps := 0; wind_y_mps := 0; gust_mps := 0;
     ground_alt_m := 0 |}.

(** The state [reset_state default_params] lowered to ground level. *)
Definition low_example : SimState :=
  {| x_m := 0; y_m := 0; alt_m := 0; heading_rad := 0;
     pitch_cmd := 0.15; yaw_cmd := 0; left_rv := 0; right_rv := 0;
     pitch_eff := 0.15; yaw_eff := 0; bank_deg := 0;
     v_air_mps := 26; t_s := 0;
     alive := true; impact := None; hist := [] |}.

(** Consecutive history entries are more than 0.10 s apart. *)
Definition spaced (h : list HistSample) : Prop :=
  forall i a b, nth_error h i = Some a -> nth_error h (S i) = Some b ->
    h_t_s b - h_t_s a > 0.10.

(** ** Predicates on states, samples and runs *)

(** Every command, surface and authority lies in [-1, 1]. *)
Definition controls_in_range (s : SimState) : Prop :=
  -1 <= pitch_cmd s <= 1 /\ -1 <= yaw_cmd s <= 1
  /\ -1 <= left_rv s <= 1 /\ -1 <= right_rv s <= 1
  /\ -1 <= pitch_eff s <= 1 /\ -1 <= yaw_eff s <= 1.

(** The impact record that line 262 builds from a state. *)
Definition impact_of (p : SimParams) (s : SimState) : Impact :=
  {| i_t_s := t_s s; i_x_m := x_m s; i_y_m := y_m s;
     i_miss_m := PyMath.hypot (x_m s - target_x_m p) (y_m s - target_y_m p);
     i_on_target :=
       rleb (PyMath.hypot (x_m s - target_x_m p) (y_m s - target_y_m p))
            (target_radius_m p) |}.

(** Flying without a record, or on the ground with the record of the
    state itself. *)
Definition flight_consistent (p : SimParams) (s : SimState) : Prop :=
  if alive s then impact s = None
  else alt_m s = ground_alt_m p /\ impact s = Some (impact_of p s).

(** What a history sample records about itself. *)
Definition sample_wellformed (p : SimParams) (h : HistSample) : Prop :=
  h_miss_m h = PyMath.hypot (h_x_m h - target_x_m p) (h_y_m h - target_y_m p)
  /\ 0 <= h_heading_deg h <= 360
  /\ (h_stall h = 0 \/ h_stall h = 1)
  /\ -1 <= h_pitch_cmd h <= 1 /\ -1 <= h_yaw_cmd h <= 1
  /\ -1 <= h_left_rv h <= 1 /\ -1 <= h_right_rv h <= 1
  /\ -1 <= h_pitch_eff h <= 1 /\ -1 <= h_yaw_eff h <= 1.

(** The simulated time a list of ticks asks for. *)
Definition ticks_time (ticks : list Tick) : R :=
  fold_right (fun k acc => tk_dt k + acc) 0 ticks.

Definition forward_tick (k : Tick) : Prop := 0 <= tk_dt k.

Definition centred_yaw (k : Tick) : Prop := tk_yaw k = 0.

(** ** [game_3d_opengl.py]: keyboard and main loop *)

Module Game.

(** The keys [main] reads from [pygame.key.get_pressed()]. *)
Record Keys : Type := mkKeys {
  K_ESCAPE : bool;
  K_w : bool;
  K_s : bool;
  K_a : bool;
  K_d : bool;
  K_r : bool
}.

(** What one pass of the loop of [main] receives: the milliseconds
    [clock.tick(FPS)] returns, whether the event queue holds a [QUIT],
    and the keys held. *)
Record FrameInput : Type := mkFrame {
  tick_ms : nat;
  quit_event : bool;
  keys : Keys
}.

(** Lines 139-162 of [main]: the inputs from the keys. *)
Definition key_inputs (k : Keys) : R * R :=
  let pitch_in := 0 in
  let yaw_in := 0 in
  let pitch_in := if K_w k then pitch_in + 1 else pitch_in in
  let pitch_in := if K_s k then pitch_in - 1 else pitch_in in
  let yaw_in := if K_a k then yaw_in + 1 else yaw_in in
  let yaw_in := if K_d k then yaw_in - 1 else yaw_in in
  let yaw_in := clamp yaw_in (-1) 1 in
  let pitch_in := clamp pitch_in (-1) 1 in
  (pitch_in, yaw_in).

(** Line 202: [s.impact = None]. *)
Definition clear_impact (s : SimState) : SimState :=
  {| x_m := x_m s; y_m := y_m s; alt_m := alt_m s;
     heading_rad := heading_rad s;
     pitch_cmd := pitch_cmd s; yaw_cmd := yaw_cmd s;
     left_rv := left_rv s; right_rv := right_rv s;
     pitch_eff := pitch_eff s; yaw_eff := yaw_eff s;
     bank_deg := bank_deg s;
     v_air_mps := v_air_mps s; t_s := t_s s;
     alive := alive s; impact := None; hist := hist s |}.

(** One pass of the loop of [main] (lines 137-168 and 197-202): [None]
    when the pass ends the program, otherwise the simulation state and
    generator after the pass and the impact record it printed, if any.
    The rendering calls of lines 170-195 only read the state and are
    left out. *)
Definition frame (p : SimParams) (w : SimState * RandomSource)
    (f : FrameInput) : option ((SimState * RandomSource) * option Impact) :=
  let dt := INR (tick_ms f) / 1000 in
  if quit_event f then None
  else if K_ESCAPE (keys f) then None
  else
    let (pitch_in, yaw_in) := key_inputs (keys f) in
    let s := if K_r (keys f) then reset_state p else fst w in
    let (s, rng) := step_sim p s dt pitch_in yaw_in (snd w) in
    if negb (alive s) then
      match impact s with
      | Some r => Some ((clear_impact s, rng), Some r)
      | None => Some ((s, rng), None)
      end
    else Some ((s, rng), None).

(** The loop of [main] over the frames it is given: the last state,
    the impact records printed in order, and whether the program has
    ended. *)
Fixpoint play (p : SimParams) (w : SimState * RandomSource)
    (frames : list FrameInput)
    : (SimState * RandomSource) * list Impact * bool :=
  match frames with
  | [] => (w, [], false)
  | f :: rest =>
      match frame p w f with
      | None => (w, [], true)
      | Some (w', printed) =>
          let '(wf, out, ended) := play p w' rest in
          (wf, match printed with Some r => r :: out | None => out end, ended)
      end
  end.

(** [main()]: default parameters, a fresh state. *)
Definition main (rng : RandomSource) (frames : list FrameInput)
    : (SimState * RandomSource) * list Impact * bool :=
  play default_params (reset_state default_params, rng) frames.

(** The frames in which [R] is held. *)
Definition resets (frames : list FrameInput) : nat :=
  length (filter (fun f => K_r (keys f)) frames).

End Game.

(** How many impact messages a state can still cause without a reset:
    one while flying or while a record is waiting to be printed. *)
Definition pending_print (s : SimState) : nat :=
  if alive s then 1
  else match impact s with Some _ => 1 | None => 0 end.

(** Flying without a record; or down, with the record of the state
    itself or with the record already cleared by [main]. *)
Definition record_genuine (p : SimParams) (s : SimState) : Prop :=
  if alive s then impact s = None
  else impact s = None \/ impact s = Some (impact_of p s).

(** ** [dashboard_streamlit.py]: the scripted run *)

Module Dashboard.

(** The sidebar values [run_sim] reads (the slider for the start
    altitude is an integer slider). *)
Record Sliders : Type := mkSliders {
  start_alt : Z;
  wind_x : R;
  wind_y : R;
  gust : R;
  pitch_bias : R;
  yaw_bias : R;
  sl_drag_k : R;
  sl_bank_sink_factor : R;
  yaw_rate : R
}.

(** Lines 32-39: [SimParams()] with seven fields overwritten. *)
Definition params (sl : Sliders) : SimParams :=
  {| g := 9.81;
     start_alt_m := IZR (start_alt sl);
     start_x_m := 0; start_y_m := 0; start_heading_deg := 0;
     target_x_m := 2400; target_y_m := 700; target_radius_m := 60;
     mass_kg := 1100; v_min := 16; v_max := 60; v_trim := 26;
     gr_min := 4; gr_max := 18;
     stall_pitch_eff := 0.75; stall_v := 18;
     stall_gr_factor := 0.55; stall_sink_boost := 1.35;
     pitch_response_per_s := 1.6;
     yaw_rate_deg_s := yaw_rate sl;
     bank_max_deg := 40; bank_response_per_s := 2;
     bank_sink_factor := sl_bank_sink_factor sl;
     drag_k := sl_drag_k sl;
     wind_x_mps := wind_x sl; wind_y_mps := wind_y sl; gust_mps := gust sl;
     ground_alt_m := 0 |}.

(** [np.clip(x, lo, hi)]. *)
Definition np_clip (x lo hi : R) : R := Rmin (Rmax x lo) hi.

(** Lines 48-61: the scripted pilot. *)
Definition pilot (sl : Sliders) (s : SimState) : R * R :=
  let pitch_in := 0 in
  let yaw_in := 0 in
  let pitch_in := pitch_in + pitch_bias sl in
  let yaw_in := yaw_in + (yaw_bias sl + 0.25 * sin (0.12 * t_s s)) in
  let pitch_in := if rltb (alt_m s) 250 then pitch_in - 0.35 else pitch_in in
  let pitch_in := np_clip pitch_in (-1) 1 in
  let yaw_in := np_clip yaw_in (-1) 1 in
  (pitch_in, yaw_in).

(** Line 43: [dt = 1/60], the binary64 number nearest to one sixtieth,
    [0x1.1111111111111p-6], which is a little below it. *)
Definition dt : R := 4803839602528529 / 288230376151711744.

(** Lines 46-63: the [while] loop, with a bound on the number of times
    its condition is evaluated; [None] when the bound is too small. *)
Fixpoint fly (fuel : nat) (sl : Sliders) (p : SimParams)
    (w : SimState * RandomSource) : option (SimState * RandomSource) :=
  match fuel with
  | O => None
  | S n =>
      if alive (fst w) && rltb (t_s (fst w)) 600 then
        let (pitch_in, yaw_in) := pilot sl (fst w) in
        fly n sl p (step_sim p (fst w) dt pitch_in yaw_in (snd w))
      else Some w
  end.

(** The dict built at lines 68-74 from the last row of the frame and
    the minimum of its [miss_m] column. *)
Record Summary : Type := mkSummary {
  sum_t_s : R;
  sum_x_m : R;
  sum_y_m : R;
  sum_miss_m : R;
  sum_min_miss_m : R
}.

(** [df["miss_m"].min()] on a frame with at least one row. *)
Definition column_min (first : R) (rest : list R) : R :=
  fold_left Rmin rest first.

(** Lines 65-74. *)
Definition summarise (h : list HistSample) : option Summary :=
  match h, hist_last h with
  | first :: rest, Some last =>
      Some {| sum_t_s := h_t_s last; sum_x_m := h_x_m last;
              sum_y_m := h_y_m last; sum_miss_m := h_miss_m last;
              sum_min_miss_m :=
                column_min (h_miss_m first) (map h_miss_m rest) |}
  | _, _ => None
  end.

(** [run_sim()]: the parameters, the rows of the frame and the
    summary. *)
Definition run_sim (fuel : nat) (sl : Sliders) (rng : RandomSource)
    : option (SimParams * list HistSample * option Summary) :=
  let p := params sl in
  match fly fuel sl p (reset_state p, rng) with
  | None => None
  | Some (s, _) => Some (p, hist s, summarise (hist s))
  end.

(** The default positions of the sliders. *)
Definition default_sliders : Sliders :=
  {| start_alt := 900; wind_x := 2.2; wind_y := -1; gust := 0.35;
     pitch_bias := 0.10; yaw_bias := 0;
     sl_drag_k := 0.012; sl_bank_sink_factor := 0.30; yaw_rate := 55 |}.

End Dashboard.

(** ** The control block in binary64

    Lines 7-8, 27-37 and 149-164 of [core_sim.py] use only [+], [-],
    [*], [abs], [max], [min] and comparisons.  They are embedded here
    a second time over Rocq's primitive floats, which are IEEE 754
    binary64 numbers like Python's [float], so that they can be
    evaluated with the rounding of the program. *)

Module F64.
Import Floats.
Local Open Scope float_scope.

(** [max(a, b)] and [min(a, b)] of two floats: the first argument
    unless the second is strictly beyond it. *)
Definition py_max (a b : float) : float := if PrimFloat.ltb a b then b else a.

Definition py_min (a b : float) : float := if PrimFloat.ltb b a then b else a.

Definition clamp (x lo hi : float) : float := py_max lo (py_min hi x).

Definition ruddervator_mix (pitch_cmd yaw_cmd : float)
    : float * float * float * float :=
  let pitch_cmd := clamp pitch_cmd (-1) 1 in
  let yaw_cmd := clamp yaw_cmd (-1) 1 in
  let left := clamp (pitch_cmd + yaw_cmd) (-1) 1 in
  let right := clamp (pitch_cmd - yaw_cmd) (-1) 1 in
  let pitch_eff := clamp (0x1p-1 * (left + right)) (-1) 1 in
  let yaw_eff := clamp (0x1p-1 * (left - right)) (-1) 1 in
  (left, right, pitch_eff, yaw_eff).

(** The three parameters the control block reads. *)
Record ControlParams : Type := mkControlParams {
  pitch_response_per_s : float;
  bank_max_deg : float;
  bank_response_per_s : float
}.

(** The seven fields of [SimState] the control block reads or writes. *)
Record Controls : Type := mkControls {
  pitch_cmd : float;
  yaw_cmd : float;
  left_rv : float;
  right_rv : float;
  pitch_eff : float;
  yaw_eff : float;
  bank_deg : float
}.

(** These fields as [reset_state] sets them (0.15 is
    [0x1.3333333333333p-3]). *)
Definition reset_controls : Controls :=
  {| pitch_cmd := 0x1.3333333333333p-3; yaw_cmd := 0;
     left_rv := 0; right_rv := 0;
     pitch_eff := 0x1.3333333333333p-3; yaw_eff := 0;
     bank_deg := 0 |}.

(** Lines 149-164 (0.9 is [0x1.ccccccccccccdp-1]). *)
Definition update_controls (p : ControlParams) (s : Controls)
    (dt pitch_in yaw_in : float) : Controls :=
  let pitch_cmd' :=
    clamp (pitch_cmd s + pitch_in * 0x1.ccccccccccccdp-1 * dt) (-1) 1 in
  let yaw_cmd' := clamp yaw_in (-1) 1 in
  let '(left_rv', right_rv', pitch_eff_cmd, yaw_eff_cmd) :=
    ruddervator_mix pitch_cmd' yaw_cmd' in
  let a := clamp (pitch_response_per_s p * dt) 0 1 in
  let pitch_eff' := pitch_eff s + (pitch_eff_cmd - pitch_eff s) * a in
  let yaw_eff' := yaw_eff_cmd in
  let bank_target :=
    clamp (PrimFloat.abs yaw_eff' * bank_max_deg p) 0 (bank_max_deg p) in
  let b := clamp (bank_response_per_s p * dt) 0 1 in
  let bank_deg' := bank_deg s + (bank_target - bank_deg s) * b in
  {| pitch_cmd := pitch_cmd'; yaw_cmd := yaw_cmd';
     left_rv := left_rv'; right_rv := right_rv';
     pitch_eff := pitch_eff'; yaw_eff := yaw_eff';
     bank_deg := bank_deg' |}.

(** The default response rates (1.6 and 2.0 per second) with
    [bank_max_deg = 40.00000000000001], the float next above 40. *)
Definition overshoot_params : ControlParams :=
  {| pitch_response_per_s := 0x1.999999999999ap+0;
     bank_max_deg := 0x1.4000000000001p+5;
     bank_response_per_s := 2 |}.

End F64.

(** [default_params] with [bank_max_deg = 40.00000000000001], written
    as the float it denotes, [40 + 2^-47]. *)
Definition overshoot_params : SimParams :=
  {| g := 9.81; start_alt_m := 900; start_x_m := 0; start_y_m := 0;
     start_heading_deg := 0;
     target_x_m := 2400; target_y_m := 700; target_radius_m := 60;
     mass_kg := 1100; v_min := 16; v_max := 60; v_trim := 26;
     gr_min := 4; gr_max := 18;
     stall_pitch_eff := 0.75; stall_v := 18;
     stall_gr_factor := 0.55; stall_sink_boost := 1.35;
     pitch_response_per_s := 1.6; yaw_rate_deg_s := 55;
     bank_max_deg := 40 + 1 / 140737488355328;
     bank_response_per_s := 2; bank_sink_factor := 0.30;
     drag_k := 0.012;
     wind_x_mps := 2.2; wind_y_mps := -1; gust_mps := 0.35;
     ground_alt_m := 0 |}.

(** The float nearest to one sixth, [0x1.5555555555555p-3]. *)
Definition sixth : R := 6004799503160661 / 36028797018963968.

(** The run of the dashboard page at the default sliders, with every
    draw 0.5 (no gust): fuel for 36001 iterations, and the state in
    which the loop ends. *)
Definition default_fuel : nat := S (Z.to_nat 36001).

Definition default_run : SimState * RandomSource :=
  let p := Dashboard.params Dashboard.default_sliders in
  match Dashboard.fly default_fuel Dashboard.default_sliders p
          (reset_state p, const_source 0.5) with
  | Some w => w
  | None => (reset_state p, const_source 0.5)
  end.

(** * Properties *)

Create HintDb vtail.

(** ** Boolean comparisons *)

Lemma rltb_true x y : rltb x y = true <-> x < y.
Proof. unfold rltb; destruct (Rlt_dec x y); split; intros; try discriminate; tauto. Qed.

Lemma rltb_false x y : rltb x y = false <-> y <= x.
Proof.
  unfold rltb; destruct (Rlt_dec x y); split; intros; try discriminate; try reflexivity; lra.
Qed.

Lemma rleb_true x y : rleb x y = true <-> x <= y.
Proof. unfold rleb; destruct (Rle_dec x y); split; intros; try discriminate; tauto. Qed.

Lemma rleb_false x y : rleb x y = false <-> y < x.
Proof.
  unfold rleb; destruct (Rle_dec x y); split; intros; try discriminate; try reflexivity; lra.
Qed.

Lemma rgtb_true x y : rgtb x y = true <-> x > y.
Proof. unfold rgtb; rewrite rltb_true; unfold Rgt; tauto. Qed.

Lemma rgtb_false x y : rgtb x y = false <-> x <= y.
Proof. unfold rgtb; apply rltb_false. Qed.

(** ** [clamp] *)

Ltac clamp_cases :=
  unfold clamp, Rmax, Rmin in *;
  repeat match goal with
         | |- context [Rle_dec ?a ?b] => destruct (Rle_dec a b)
         | H : context [Rle_dec ?a ?b] |- _ => destruct (Rle_dec a b)
         end;
  try lra.

Lemma clamp_range x lo hi : lo <= hi -> lo <= clamp x lo hi <= hi.
Proof. intros; clamp_cases. Qed.

Lemma clamp_inside x lo hi : lo <= x <= hi -> clamp x lo hi = x.
Proof. intros; clamp_cases. Qed.

Lemma clamp_below x lo hi : x <= lo -> lo <= hi -> clamp x lo hi = lo.
Proof. intros; clamp_cases. Qed.

Lemma clamp_above x lo hi : hi <= x -> lo <= hi -> clamp x lo hi = hi.
Proof. intros; clamp_cases. Qed.

Lemma clamp_ge_lo x lo hi : lo <= clamp x lo hi.
Proof. clamp_cases. Qed.

#[local] Hint Resolve clamp_range clamp_ge_lo : vtail.

(** ** The mixer *)

Lemma mix_left_range pc yc : -1 <= mix_left pc yc <= 1.
Proof. unfold mix_left; simpl; apply clamp_range; lra. Qed.

Lemma mix_right_range pc yc : -1 <= mix_right pc yc <= 1.
Proof. unfold mix_right; simpl; apply clamp_range; lra. Qed.

Lemma mix_yaw_eff_half pc yc :
  mix_yaw_eff pc yc = 0.5 * (mix_left pc yc - mix_right pc yc).
Proof.
  pose proof (mix_left_range pc yc) as Hl.
  pose proof (mix_right_range pc yc) as Hr.
  unfold mix_yaw_eff, mix_left, mix_right in *; simpl in *.
  apply clamp_inside; lra.
Qed.

Lemma mix_pitch_eff_half pc yc :
  mix_pitch_eff pc yc = 0.5 * (mix_left pc yc + mix_right pc yc).
Proof.
  pose proof (mix_left_range pc yc) as Hl.
  pose proof (mix_right_range pc yc) as Hr.
  unfold mix_pitch_eff, mix_left, mix_right in *; simpl in *.
  apply clamp_inside; lra.
Qed.

(** When neither surface saturates the mixer gives back the (clamped)
    commands. *)
Lemma mix_unsaturated pc yc :
  -1 <= clamp pc (-1) 1 + clamp yc (-1) 1 <= 1 ->
  -1 <= clamp pc (-1) 1 - clamp yc (-1) 1 <= 1 ->
  mix_pitch_eff pc yc = clamp pc (-1) 1 /\ mix_yaw_eff pc yc = clamp yc (-1) 1.
Proof.
  intros H1 H2.
  rewrite mix_pitch_eff_half, mix_yaw_eff_half.
  unfold mix_left, mix_right; simpl.
  rewrite !(clamp_inside (_ + _)), !(clamp_inside (_ - _)) by assumption.
  split; lra.
Qed.

(** C2.  [ruddervator_mix] clamps both commands to [-1,1], then returns
    [left = clamp(pitch + yaw)], [right = clamp(pitch - yaw)],
    [pitch_eff = clamp(0.5*(left+right))] and
    [yaw_eff = clamp(0.5*(left-right))], all clamps to [-1,1]; it is a
    function of its two arguments only.  [left - right = 2*yaw_eff]
    holds for all inputs (so in particular when neither surface
    saturates), and the commands (1, 1) give left 1, right 0 and
    yaw_eff 0.5. *)
Theorem ruddervator_mix_contract :
  (forall pitch_cmd yaw_cmd : R,
     let pc := clamp pitch_cmd (-1) 1 in
     let yc := clamp yaw_cmd (-1) 1 in
     let left := clamp (pc + yc) (-1) 1 in
     let right := clamp (pc - yc) (-1) 1 in
     ruddervator_mix pitch_cmd yaw_cmd =
       (left, right,
        clamp (0.5 * (left + right)) (-1) 1,
        clamp (0.5 * (left - right)) (-1) 1)
     /\ mix_left pitch_cmd yaw_cmd - mix_right pitch_cmd yaw_cmd
        = 2 * mix_yaw_eff pitch_cmd yaw_cmd)
  /\ mix_left 1 1 = 1 /\ mix_right 1 1 = 0 /\ mix_yaw_eff 1 1 = 0.5.
Proof.
  split.
  - intros pitch_cmd yaw_cmd; cbv zeta; split.
    + reflexivity.
    + rewrite mix_yaw_eff_half; lra.
  - assert (Hl : mix_left 1 1 = 1) by (unfold mix_left; simpl; clamp_cases).
    assert (Hr : mix_right 1 1 = 0) by (unfold mix_right; simpl; clamp_cases).
    repeat split; try assumption.
    rewrite mix_yaw_eff_half, Hl, Hr; lra.
Qed.

(** ** The blocks of [step_sim]: what each leaves alone *)

Lemma step_sim_dead p s dt pitch_in yaw_in rng :
  alive s = false -> step_sim p s dt pitch_in yaw_in rng = (s, rng).
Proof. intros H; unfold step_sim; rewrite H; reflexivity. Qed.

Lemma step_sim_alive p s dt pitch_in yaw_in rng :
  alive s = true ->
  step_sim p s dt pitch_in yaw_in rng =
    (impact_check p (before_impact p s dt pitch_in yaw_in rng), after_draws rng).
Proof. intros H; unfold step_sim; rewrite H; reflexivity. Qed.

Lemma impact_check_cases p s :
  (alt_m s <= ground_alt_m p /\ rleb (alt_m s) (ground_alt_m p) = true)
  \/ (ground_alt_m p < alt_m s /\ impact_check p s = s).
Proof.
  unfold impact_check; destruct (rleb (alt_m s) (ground_alt_m p)) eqn:E.
  - left; split; [now apply rleb_true | reflexivity].
  - right; split; [now apply rleb_false | reflexivity].
Qed.

Ltac frame :=
  intros;
  unfold impact_check, record_history, update_energy, after_kinematics,
    update_kinematics;
  repeat match goal with
         | |- context [if ?c then _ else _] => destruct c
         end;
  reflexivity.

Lemma impact_check_v_air p s : v_air_mps (impact_check p s) = v_air_mps s.
Proof. frame. Qed.

Lemma impact_check_bank p s : bank_deg (impact_check p s) = bank_deg s.
Proof. frame. Qed.

Lemma impact_check_hist p s : hist (impact_check p s) = hist s.
Proof. frame. Qed.

Lemma impact_check_xy p s :
  x_m (impact_check p s) = x_m s /\ y_m (impact_check p s) = y_m s.
Proof. split; frame. Qed.

Lemma impact_check_t p s : t_s (impact_check p s) = t_s s.
Proof. frame. Qed.

Lemma record_history_v_air p s st gr :
  v_air_mps (record_history p s st gr) = v_air_mps s.
Proof. frame. Qed.

Lemma record_history_bank p s st gr :
  bank_deg (record_history p s st gr) = bank_deg s.
Proof. frame. Qed.

Lemma record_history_alt p s st gr : alt_m (record_history p s st gr) = alt_m s.
Proof. frame. Qed.

Lemma record_history_xy p s st gr :
  x_m (record_history p s st gr) = x_m s /\ y_m (record_history p s st gr) = y_m s.
Proof. split; frame. Qed.

Lemma record_history_t p s st gr : t_s (record_history p s st gr) = t_s s.
Proof. frame. Qed.

Lemma record_history_alive p s st gr : alive (record_history p s st gr) = alive s.
Proof. frame. Qed.

Lemma record_history_impact p s st gr : impact (record_history p s st gr) = impact s.
Proof. frame. Qed.

Lemma before_impact_alt p s dt pitch_in yaw_in rng :
  alt_m (before_impact p s dt pitch_in yaw_in rng)
  = alt_m (after_kinematics p s dt pitch_in yaw_in rng).
Proof. unfold before_impact; rewrite record_history_alt; reflexivity. Qed.

Lemma before_impact_xy p s dt pitch_in yaw_in rng :
  x_m (before_impact p s dt pitch_in yaw_in rng)
  = x_m (after_kinematics p s dt pitch_in yaw_in rng)
  /\ y_m (before_impact p s dt pitch_in yaw_in rng)
     = y_m (after_kinematics p s dt pitch_in yaw_in rng).
Proof.
  unfold before_impact.
  destruct (record_history_xy p
    (update_energy p (after_kinematics p s dt pitch_in yaw_in rng) dt)
    (stall_flag p (update_controls p s dt pitch_in yaw_in))
    (glide_ratio p (update_controls p s dt pitch_in yaw_in))) as [-> ->].
  split; reflexivity.
Qed.

Lemma before_impact_t p s dt pitch_in yaw_in rng :
  t_s (before_impact p s dt pitch_in yaw_in rng) = t_s s + dt.
Proof. unfold before_impact; rewrite record_history_t; reflexivity. Qed.

Lemma before_impact_v_air p s dt pitch_in yaw_in rng :
  v_air_mps (before_impact p s dt pitch_in yaw_in rng)
  = clamp (sqrt (2 * kinetic_term p
                        (after_kinematics p s dt pitch_in yaw_in rng) dt))
          (v_min p) (v_max p).
Proof. unfold before_impact; rewrite record_history_v_air; reflexivity. Qed.

Lemma after_kinematics_alt p s dt pitch_in yaw_in rng :
  alt_m (after_kinematics p s dt pitch_in yaw_in rng)
  = alt_m s - sink_rate p (update_controls p s dt pitch_in yaw_in) * dt.
Proof. reflexivity. Qed.

Lemma after_kinematics_v_air p s dt pitch_in yaw_in rng :
  v_air_mps (after_kinematics p s dt pitch_in yaw_in rng) = v_air_mps s.
Proof. reflexivity. Qed.

(** ** Runs *)

Lemma run_nil p w : run p w [] = w.
Proof. reflexivity. Qed.

Lemma run_cons p w k ticks : run p w (k :: ticks) = run p (tick p w k) ticks.
Proof. reflexivity. Qed.

Lemma run_app p w t1 t2 : run p w (t1 ++ t2) = run p (run p w t1) t2.
Proof. unfold run; apply fold_left_app. Qed.

(** A property of states that every step preserves holds along every run. *)
Lemma run_invariant (p : SimParams) (P : SimState -> Prop) :
  (forall s dt pitch_in yaw_in rng,
     P s -> P (fst (step_sim p s dt pitch_in yaw_in rng))) ->
  forall ticks w, P (fst w) -> P (fst (run p w ticks)).
Proof.
  intros Hstep ticks; induction ticks as [|k ticks IH]; intros w Hw.
  - exact Hw.
  - rewrite run_cons; apply IH; unfold tick; apply Hstep; exact Hw.
Qed.

Lemma run_dead p ticks : forall w, alive (fst w) = false -> run p w ticks = w.
Proof.
  induction ticks as [|k ticks IH]; intros [s rng] H; [reflexivity|].
  rewrite run_cons; unfold tick; simpl fst; simpl snd.
  rewrite step_sim_dead by exact H; apply IH; exact H.
Qed.

(** ** Terminal state *)

(** C4.  When [alive] is false, [step_sim] returns at once: every field
    of the state (position, altitude, airspeed, controls, time, history,
    impact record) is as before, no random number is drawn, and any
    number of further calls leaves it so. *)
Theorem step_sim_terminal_noop p s dt pitch_in yaw_in rng
    (Hdead : alive s = false) :
  step_sim p s dt pitch_in yaw_in rng = (s, rng)
  /\ forall ticks, run p (s, rng) ticks = (s, rng).
Proof.
  split.
  - apply step_sim_dead; exact Hdead.
  - intros ticks; apply run_dead; exact Hdead.
Qed.

Lemma step_sim_terminal_noop_witness :
  step_sim default_params landed_example 1 1 1 (const_source 0.5)
    = (landed_example, const_source 0.5)
  /\ forall ticks,
       run default_params (landed_example, const_source 0.5) ticks
       = (landed_example, const_source 0.5).
Proof. apply step_sim_terminal_noop; reflexivity. Defined.

(** ** Airspeed and bank stay in range *)

Lemma step_v_air_range p s dt pitch_in yaw_in rng :
  v_min p <= v_max p ->
  v_min p <= v_air_mps s <= v_max p ->
  v_min p <= v_air_mps (fst (step_sim p s dt pitch_in yaw_in rng)) <= v_max p.
Proof.
  intros Hp Hs; destruct (alive s) eqn:Ha.
  - rewrite step_sim_alive by exact Ha; simpl fst.
    rewrite impact_check_v_air, before_impact_v_air.
    apply clamp_range; exact Hp.
  - rewrite step_sim_dead by exact Ha; exact Hs.
Qed.

(** C8.  From [reset_state p] with [v_min <= v_trim <= v_max], the
    airspeed is within [v_min, v_max] after every [step_sim] call of
    every run, whatever the inputs, the time steps and the gusts. *)
Theorem airspeed_within_bounds p (Hp : v_min p <= v_trim p <= v_max p)
    (ticks : list Tick) (rng : RandomSource) :
  v_min p <= v_air_mps (fst (run p (reset_state p, rng) ticks)) <= v_max p.
Proof.
  apply (run_invariant p (fun s => v_min p <= v_air_mps s <= v_max p)).
  - intros; apply step_v_air_range; [lra | assumption].
  - exact Hp.
Qed.

Lemma airspeed_within_bounds_witness :
  v_min default_params
  <= v_air_mps (fst (run default_params
                       (reset_state default_params, const_source 0.5)
                       [mkTick 1 1 0; mkTick 1 0 (-1)]))
  <= v_max default_params.
Proof. apply (airspeed_within_bounds default_params); simpl; lra. Defined.

Lemma update_controls_bank p s dt pitch_in yaw_in :
  bank_deg (update_controls p s dt pitch_in yaw_in)
  = bank_deg s
    + (clamp (Rabs (yaw_eff (update_controls p s dt pitch_in yaw_in))
              * bank_max_deg p) 0 (bank_max_deg p)
       - bank_deg s) * clamp (bank_response_per_s p * dt) 0 1.
Proof. reflexivity. Qed.

(** A blend [x + (target - x) * b] with [b] in [0,1] stays between
    bounds that hold [x] and [target]. *)
Lemma blend_range x target b lo hi :
  lo <= x <= hi -> lo <= target <= hi -> 0 <= b <= 1 ->
  lo <= x + (target - x) * b <= hi.
Proof. intros Hx Ht Hb; split; nra. Qed.

Lemma step_bank_range p s dt pitch_in yaw_in rng :
  0 <= bank_max_deg p ->
  0 <= bank_deg s <= bank_max_deg p ->
  0 <= bank_deg (fst (step_sim p s dt pitch_in yaw_in rng)) <= bank_max_deg p.
Proof.
  intros Hp Hs; destruct (alive s) eqn:Ha.
  - rewrite step_sim_alive by exact Ha; simpl fst.
    rewrite impact_check_bank; unfold before_impact.
    rewrite record_history_bank.
    change (bank_deg (update_energy p
              (after_kinematics p s dt pitch_in yaw_in rng) dt))
      with (bank_deg (update_controls p s dt pitch_in yaw_in)).
    rewrite update_controls_bank.
    apply blend_range; [exact Hs | | ]; apply clamp_range; lra.
  - rewrite step_sim_dead by exact Ha; exact Hs.
Qed.

(** In exact arithmetic the clamps of lines 162-163 keep the bank angle
    within [0, bank_max_deg] along every run from [reset_state p] with
    [bank_max_deg >= 0]: reset gives 0, and a step moves the bank by a
    blend factor in [0,1] towards a target in [0, bank_max_deg].  The
    program's binary64 rounding does not keep this (see the section on
    rounding at the end). *)
Theorem bank_within_bounds p (Hp : bank_max_deg p >= 0)
    (ticks : list Tick) (rng : RandomSource) :
  0 <= bank_deg (fst (run p (reset_state p, rng) ticks)) <= bank_max_deg p.
Proof.
  apply (run_invariant p (fun s => 0 <= bank_deg s <= bank_max_deg p)).
  - intros; apply step_bank_range; [lra | assumption].
  - simpl; lra.
Qed.

Lemma bank_within_bounds_witness :
  0 <= bank_deg (fst (run default_params
                        (reset_state default_params, const_source 0.5)
                        [mkTick 1 1 0; mkTick 1 0 (-1)]))
  <= bank_max_deg default_params.
Proof. apply (bank_within_bounds default_params); simpl; lra. Defined.

(** ** Gusts *)

Lemma update_kinematics_gustless p s dt fwd sink rng1 rng2 :
  gust_mps p = 0 ->
  fst (update_kinematics p s dt fwd sink rng1)
  = fst (update_kinematics p s dt fwd sink rng2).
Proof.
  intros Hg; unfold update_kinematics; simpl; rewrite Hg, !Rmult_0_r.
  reflexivity.
Qed.

(** C10.  With [gust_mps = 0] the state after a step does not depend on
    the random generator: two calls from the same parameters, state,
    time step and inputs give equal states whatever the generators
    return, both gust components being a draw times [gust_mps]. *)
Theorem gustless_step_deterministic p s dt pitch_in yaw_in rng1 rng2
    (Hg : gust_mps p = 0) :
  fst (step_sim p s dt pitch_in yaw_in rng1)
  = fst (step_sim p s dt pitch_in yaw_in rng2).
Proof.
  destruct (alive s) eqn:Ha.
  - rewrite !step_sim_alive by exact Ha; simpl fst.
    unfold before_impact, after_kinematics.
    rewrite (update_kinematics_gustless p _ dt _ _ rng1 rng2 Hg).
    reflexivity.
  - rewrite !step_sim_dead by exact Ha; reflexivity.
Qed.

Lemma gustless_step_deterministic_witness :
  fst (step_sim calm_params (reset_state calm_params) 1 0 0 (const_source 0))
  = fst (step_sim calm_params (reset_state calm_params) 1 0 0
           (const_source 0.9)).
Proof. apply gustless_step_deterministic; reflexivity. Defined.

(** With gusts the draw does reach the state: the generator is a real
    input of the step. *)
Lemma gust_reaches_position :
  x_m (fst (step_sim default_params (reset_state default_params) 1 0 0
              (const_source 0)))
  <> x_m (fst (step_sim default_params (reset_state default_params) 1 0 0
                 (const_source 1))).
Proof.
  rewrite !step_sim_alive by reflexivity; simpl fst.
  rewrite !(proj1 (impact_check_xy _ _)), !(proj1 (before_impact_xy _ _ _ _ _ _)).
  unfold after_kinematics, update_kinematics, random_random, const_source.
  cbn [fst snd x_m rs_draws rs_pos gust_mps wind_x_mps default_params].
  lra.
Qed.

(** ** Flight-path angle and sink *)

Lemma flight_path_angle_range p s :
  0 < flight_path_angle p s < PI / 2.
Proof.
  unfold flight_path_angle, PyMath.atan2.
  set (m := Rmax (glide_ratio p s) 0.1).
  assert (Hm : 0 < m).
  { unfold m; pose proof (Rmax_r (glide_ratio p s) 0.1); lra. }
  destruct (Rlt_dec 0 m) as [_|Hn]; [|contradiction].
  assert (Hq : 0 < 1 / m) by (apply Rdiv_lt_0_compat; lra).
  split.
  - rewrite <- atan_0; apply atan_increasing; exact Hq.
  - apply atan_bound.
Qed.

Lemma sin_flight_path_pos p s : 0 < sin (flight_path_angle p s).
Proof.
  pose proof (flight_path_angle_range p s) as [H0 H1].
  apply sin_gt_0; [exact H0|]. pose proof PI_RGT_0; lra.
Qed.

Lemma cos_flight_path_pos p s : 0 < cos (flight_path_angle p s).
Proof.
  pose proof (flight_path_angle_range p s) as [H0 H1].
  apply cos_gt_0; lra.
Qed.

Lemma bank_fraction_range p s : 0 <= bank_fraction p s <= 1.
Proof.
  unfold bank_fraction; destruct (rgtb (bank_max_deg p) 0).
  - apply clamp_range; lra.
  - lra.
Qed.

(** The division of line 183 is only evaluated with a positive divisor. *)
Lemma bank_frac_div_defined p s :
  bank_max_deg p <= 0 \/
  (bank_max_deg p <> 0
   /\ bank_fraction p s = clamp (bank_deg s / bank_max_deg p) 0 1).
Proof.
  unfold bank_fraction; destruct (rgtb (bank_max_deg p) 0) eqn:E.
  - apply rgtb_true in E; right; split; [lra | reflexivity].
  - apply rgtb_false in E; left; exact E.
Qed.

(** The square root of line 227 is only taken of a non-negative number. *)
Lemma energy_sqrt_defined p s dt : 0 <= 2 * kinetic_term p s dt.
Proof.
  unfold kinetic_term; cbv zeta.
  match goal with |- 0 <= 2 * Rmax 0 ?e => pose proof (Rmax_l 0 e) end.
  lra.
Qed.

Lemma sink_rate_nonneg p s :
  0 <= v_air_mps s -> 0 <= bank_sink_factor p -> 0 <= stall_sink_boost p ->
  0 <= sink_rate p s.
Proof.
  intros Hv Hb Hs.
  pose proof (sin_flight_path_pos p s) as Hsin.
  pose proof (bank_fraction_range p s) as Hf.
  assert (H1 : 0 <= v_air_mps s * sin (flight_path_angle p s))
    by (apply Rmult_le_pos; lra).
  assert (H2 : 0 <= 1 + bank_sink_factor p * bank_fraction p s ^ 2).
  { assert (0 <= bank_fraction p s ^ 2) by (apply pow_le; lra).
    assert (0 <= bank_sink_factor p * bank_fraction p s ^ 2)
      by (apply Rmult_le_pos; lra).
    lra. }
  unfold sink_rate; cbv zeta; destruct (stall_flag p s).
  - apply Rmult_le_pos; [apply Rmult_le_pos|]; assumption.
  - apply Rmult_le_pos; assumption.
Qed.

(** ** Energy-based speed update *)

(** C1.  In a step from a live state the new airspeed is
    [clamp(sqrt(2 * max(0, max(0, g*alt + 0.5*v^2 - drag_k*v^3*dt) - g*alt)),
    v_min, v_max)], where [v] is the airspeed before the step and [alt]
    the altitude after the kinematics update of the same step, that is
    the old altitude minus [sink * dt]. *)
Theorem energy_speed_update p s dt pitch_in yaw_in rng
    (Ha : alive s = true) :
  let alt := alt_m (after_kinematics p s dt pitch_in yaw_in rng) in
  let v := v_air_mps s in
  let e := Rmax 0 (g p * alt + 0.5 * v ^ 2 - drag_k p * v ^ 3 * dt) in
  let kin := Rmax 0 (e - g p * alt) in
  v_air_mps (fst (step_sim p s dt pitch_in yaw_in rng))
    = clamp (sqrt (2 * kin)) (v_min p) (v_max p)
  /\ alt = alt_m s - sink_rate p (update_controls p s dt pitch_in yaw_in) * dt.
Proof.
  cbv zeta; split; [|reflexivity].
  rewrite step_sim_alive by exact Ha; simpl fst.
  rewrite impact_check_v_air, before_impact_v_air.
  reflexivity.
Qed.

Lemma energy_speed_update_witness :
  let p := default_params in
  let s := reset_state default_params in
  let alt := alt_m (after_kinematics p s 1 0 0 (const_source 0.5)) in
  let v := v_air_mps s in
  let e := Rmax 0 (g p * alt + 0.5 * v ^ 2 - drag_k p * v ^ 3 * 1) in
  let kin := Rmax 0 (e - g p * alt) in
  v_air_mps (fst (step_sim p s 1 0 0 (const_source 0.5)))
    = clamp (sqrt (2 * kin)) (v_min p) (v_max p)
  /\ alt = alt_m s - sink_rate p (update_controls p s 1 0 0) * 1.
Proof.
  exact (energy_speed_update default_params (reset_state default_params)
           1 0 0 (const_source 0.5) eq_refl).
Defined.

(** ** Impact *)

Lemma impact_check_hit p s :
  alt_m s <= ground_alt_m p ->
  impact_check p s =
    {| x_m := x_m s; y_m := y_m s; alt_m := ground_alt_m p;
       heading_rad := heading_rad s;
       pitch_cmd := pitch_cmd s; yaw_cmd := yaw_cmd s;
       left_rv := left_rv s; right_rv := right_rv s;
       pitch_eff := pitch_eff s; yaw_eff := yaw_eff s;
       bank_deg := bank_deg s;
       v_air_mps := v_air_mps s; t_s := t_s s;
       alive := false;
       impact :=
         Some {| i_t_s := t_s s; i_x_m := x_m s; i_y_m := y_m s;
                 i_miss_m :=
                   PyMath.hypot (x_m s - target_x_m p) (y_m s - target_y_m p);
                 i_on_target :=
                   rleb (PyMath.hypot (x_m s - target_x_m p)
                           (y_m s - target_y_m p))
                        (target_radius_m p) |};
       hist := hist s |}.
Proof.
  intros H; unfold impact_check.
  rewrite (proj2 (rleb_true _ _) H); reflexivity.
Qed.

Lemma impact_check_miss p s :
  ground_alt_m p < alt_m s -> impact_check p s = s.
Proof.
  intros H; unfold impact_check.
  rewrite (proj2 (rleb_false _ _) H); reflexivity.
Qed.

(** A live state keeps its impact record untouched unless the step
    ends on the ground. *)
Lemma step_sim_impact_cases p s dt pitch_in yaw_in rng :
  let s' := fst (step_sim p s dt pitch_in yaw_in rng) in
  (alive s' = alive s /\ impact s' = impact s)
  \/ (alive s = true /\ alive s' = false).
Proof.
  cbv zeta; destruct (alive s) eqn:Ha.
  - rewrite step_sim_alive by exact Ha; simpl fst.
    destruct (Rle_dec (alt_m (before_impact p s dt pitch_in yaw_in rng))
                (ground_alt_m p)) as [Hle|Hgt].
    + right; rewrite impact_check_hit by exact Hle; split; reflexivity.
    + left; rewrite impact_check_miss by lra.
      unfold before_impact; rewrite record_history_alive, record_history_impact.
      simpl; split; [exact Ha | reflexivity].
  - rewrite step_sim_dead by exact Ha; left; split; [exact Ha | reflexivity].
Qed.

(** Until the impact the record is absent. *)
Lemma alive_no_impact p ticks rng :
  let s := fst (run p (reset_state p, rng) ticks) in
  alive s = true -> impact s = None.
Proof.
  cbv zeta.
  apply (run_invariant p (fun s => alive s = true -> impact s = None)).
  - intros s dt pitch_in yaw_in rng0 IH Ha'.
    destruct (step_sim_impact_cases p s dt pitch_in yaw_in rng0)
      as [[Ha Hi]|[_ Hd]].
    + rewrite Hi; apply IH; rewrite <- Ha; exact Ha'.
    + rewrite Hd in Ha'; discriminate.
  - reflexivity.
Qed.

(** C3.  A step from a live state whose altitude after the kinematics
    update is at or below [ground_alt_m] sets the altitude to
    [ground_alt_m], clears [alive], and stores an impact record with
    the time and position of the final state,
    [miss_m = hypot(x - target_x, y - target_y)] at that position and
    [on_target = (miss_m <= target_radius_m)].  Any further calls leave
    the state, and so the record, as they are; and in a run from
    [reset_state] the record is absent before this step, so it is
    written once. *)
Theorem impact_transition p s dt pitch_in yaw_in rng
    (Ha : alive s = true)
    (Hg : alt_m (after_kinematics p s dt pitch_in yaw_in rng) <= ground_alt_m p) :
  let s' := fst (step_sim p s dt pitch_in yaw_in rng) in
  alt_m s' = ground_alt_m p
  /\ alive s' = false
  /\ (exists r, impact s' = Some r
        /\ i_t_s r = t_s s' /\ i_x_m r = x_m s' /\ i_y_m r = y_m s'
        /\ i_miss_m r
           = PyMath.hypot (x_m s' - target_x_m p) (y_m s' - target_y_m p)
        /\ (i_on_target r = true <-> i_miss_m r <= target_radius_m p))
  /\ (forall ticks rng', run p (s', rng') ticks = (s', rng'))
  /\ (forall ticks0 rng0,
        s = fst (run p (reset_state p, rng0) ticks0) -> impact s = None).
Proof.
  cbv zeta.
  rewrite step_sim_alive by exact Ha; simpl fst.
  rewrite <- before_impact_alt in Hg.
  rewrite impact_check_hit by exact Hg.
  split; [reflexivity|]. split; [reflexivity|]. split; [|split].
  - eexists; split; [reflexivity|]; simpl.
    repeat split; try reflexivity; apply rleb_true.
  - intros ticks rng'; apply run_dead; reflexivity.
  - intros ticks0 rng0 ->; apply alive_no_impact; exact Ha.
Qed.

Lemma low_example_sinks :
  alt_m (after_kinematics default_params low_example 1 0 0 (const_source 0.5))
  <= ground_alt_m default_params.
Proof.
  rewrite after_kinematics_alt.
  pose proof (sink_rate_nonneg default_params
                (update_controls default_params low_example 1 0 0)) as H.
  change (alt_m low_example) with 0.
  change (ground_alt_m default_params) with 0.
  assert (0 <= sink_rate default_params
                 (update_controls default_params low_example 1 0 0)).
  { apply H; simpl; lra. }
  lra.
Defined.

Lemma impact_transition_witness :
  let p := default_params in
  let s' := fst (step_sim p low_example 1 0 0 (const_source 0.5)) in
  alt_m s' = ground_alt_m p
  /\ alive s' = false
  /\ (exists r, impact s' = Some r
        /\ i_t_s r = t_s s' /\ i_x_m r = x_m s' /\ i_y_m r = y_m s'
        /\ i_miss_m r
           = PyMath.hypot (x_m s' - target_x_m p) (y_m s' - target_y_m p)
        /\ (i_on_target r = true <-> i_miss_m r <= target_radius_m p))
  /\ (forall ticks rng', run p (s', rng') ticks = (s', rng'))
  /\ (forall ticks0 rng0,
        low_example = fst (run p (reset_state p, rng0) ticks0) ->
        impact low_example = None).
Proof.
  exact (impact_transition default_params low_example 1 0 0 (const_source 0.5)
           eq_refl low_example_sinks).
Defined.

(** ** History sampling *)

Lemma hist_last_app l x : hist_last (l ++ [x]) = Some x.
Proof.
  induction l as [|a l IH]; [reflexivity|].
  simpl; destruct (l ++ [x]) eqn:E; [|exact IH].
  destruct l; discriminate.
Qed.

Lemma hist_last_none l : hist_last l = None <-> l = [].
Proof.
  split; [|intros ->; reflexivity].
  induction l as [|a l IH]; [reflexivity|].
  simpl; destruct l; [discriminate|].
  intros H; apply IH in H; discriminate.
Qed.

Lemma hist_last_nth_error l : hist_last l = nth_error l (pred (length l)).
Proof.
  induction l as [|a l IH]; [reflexivity|].
  destruct l as [|b l]; [reflexivity|].
  change (hist_last (a :: b :: l)) with (hist_last (b :: l)).
  rewrite IH; reflexivity.
Qed.

Lemma spaced_nil : spaced [].
Proof. intros i a b H; destruct i; discriminate. Qed.

Lemma spaced_app l x :
  spaced l ->
  (forall y, hist_last l = Some y -> h_t_s x - h_t_s y > 0.10) ->
  spaced (l ++ [x]).
Proof.
  intros Hl Hx i a b Ha Hb.
  destruct (Nat.lt_ge_cases (S i) (length l)) as [Hlt|Hge].
  - rewrite nth_error_app1 in Ha by lia.
    rewrite nth_error_app1 in Hb by lia.
    exact (Hl i a b Ha Hb).
  - assert (Hi : S i = length l).
    { assert (S i < length (l ++ [x]))%nat
        by (apply nth_error_Some; rewrite Hb; discriminate).
      rewrite length_app in H; simpl in H; lia. }
    rewrite nth_error_app2 in Hb by lia.
    rewrite Hi, Nat.sub_diag in Hb; injection Hb as <-.
    rewrite nth_error_app1 in Ha by lia.
    apply Hx; rewrite hist_last_nth_error, <- Hi; exact Ha.
Qed.

Lemma sample_due_spec s :
  sample_due s = true <->
  (hist s = [] \/
   exists l, hist_last (hist s) = Some l /\ t_s s - h_t_s l > 0.10).
Proof.
  unfold sample_due; destruct (hist_last (hist s)) as [l|] eqn:E.
  - rewrite rgtb_true; split.
    + intros H; right; exists l; split; [reflexivity | exact H].
    + intros [Hn | [l' [Hl' H]]].
      * rewrite Hn in E; discriminate.
      * injection Hl' as <-; exact H.
  - split; [|reflexivity].
    intros _; left; apply hist_last_none; exact E.
Qed.

(** The history after a live step. *)
Lemma step_sim_hist p s dt pitch_in yaw_in rng :
  alive s = true ->
  let s1 := update_controls p s dt pitch_in yaw_in in
  let s3 := update_energy p (after_kinematics p s dt pitch_in yaw_in rng) dt in
  hist (fst (step_sim p s dt pitch_in yaw_in rng))
  = if sample_due s3
    then hist s ++ [make_sample p s3 (stall_flag p s1) (glide_ratio p s1)]
    else hist s.
Proof.
  intros Ha; cbv zeta.
  rewrite step_sim_alive by exact Ha; simpl fst.
  rewrite impact_check_hist; unfold before_impact, record_history.
  destruct (sample_due _); reflexivity.
Qed.

Lemma step_sim_spaced p s dt pitch_in yaw_in rng :
  spaced (hist s) -> spaced (hist (fst (step_sim p s dt pitch_in yaw_in rng))).
Proof.
  intros Hs; destruct (alive s) eqn:Ha.
  - rewrite step_sim_hist by exact Ha; cbv zeta.
    destruct (sample_due _) eqn:E; [|exact Hs].
    apply spaced_app; [exact Hs|].
    intros y Hy; apply sample_due_spec in E.
    destruct E as [Hn | [l [Hl Hgt]]].
    + simpl in Hn; rewrite Hn in Hy; discriminate.
    + simpl in Hl; rewrite Hl in Hy; injection Hy as <-; exact Hgt.
  - rewrite step_sim_dead by exact Ha; exact Hs.
Qed.

(** C6.  A step from a live state appends a history sample exactly when
    the history is empty or the new elapsed time [t_s + dt] exceeds the
    time of the last sample by more than 0.10; it appends at most one;
    and in every state of a run from [reset_state] consecutive entries
    are more than 0.10 apart. *)
Theorem history_sampling p s dt pitch_in yaw_in rng (Ha : alive s = true) :
  let s' := fst (step_sim p s dt pitch_in yaw_in rng) in
  let due :=
    hist s = [] \/
    exists l, hist_last (hist s) = Some l /\ (t_s s + dt) - h_t_s l > 0.10 in
  (due -> exists smp, hist s' = hist s ++ [smp] /\ h_t_s smp = t_s s + dt)
  /\ (~ due -> hist s' = hist s)
  /\ (length (hist s') <= S (length (hist s)))%nat
  /\ (spaced (hist s) -> spaced (hist s'))
  /\ (forall ticks rng0,
        spaced (hist (fst (run p (reset_state p, rng0) ticks)))).
Proof.
  cbv zeta.
  pose proof (step_sim_hist p s dt pitch_in yaw_in rng Ha) as Hh.
  cbv zeta in Hh.
  pose proof (sample_due_spec
    (update_energy p (after_kinematics p s dt pitch_in yaw_in rng) dt)) as Hd.
  simpl in Hd.
  repeat split.
  - intros Hdue; apply Hd in Hdue; rewrite Hdue in Hh.
    eexists; split; [exact Hh | reflexivity].
  - intros Hn; destruct (sample_due _) eqn:E; [|exact Hh].
    exfalso; apply Hn, Hd; reflexivity.
  - rewrite Hh; destruct (sample_due _); [|lia].
    rewrite length_app; simpl; lia.
  - apply step_sim_spaced.
  - intros ticks rng0.
    apply (run_invariant p (fun s => spaced (hist s))).
    + intros; apply step_sim_spaced; assumption.
    + apply spaced_nil.
Qed.

Lemma history_sampling_witness :
  let p := default_params in
  let s := reset_state default_params in
  let s' := fst (step_sim p s 1 0 0 (const_source 0.5)) in
  let due :=
    hist s = [] \/
    exists l, hist_last (hist s) = Some l /\ (t_s s + 1) - h_t_s l > 0.10 in
  (due -> exists smp, hist s' = hist s ++ [smp] /\ h_t_s smp = t_s s + 1)
  /\ (~ due -> hist s' = hist s)
  /\ (length (hist s') <= S (length (hist s)))%nat
  /\ (spaced (hist s) -> spaced (hist s'))
  /\ (forall ticks rng0,
        spaced (hist (fst (run p (reset_state p, rng0) ticks)))).
Proof.
  exact (history_sampling default_params (reset_state default_params)
           1 0 0 (const_source 0.5) eq_refl).
Defined.

(** ** Stall *)

Lemma update_controls_pitch_eff p s dt pitch_in yaw_in :
  pitch_eff (update_controls p s dt pitch_in yaw_in)
  = pitch_eff s
    + (mix_pitch_eff (clamp (pitch_cmd s + pitch_in * 0.9 * dt) (-1) 1)
         (clamp yaw_in (-1) 1)
       - pitch_eff s) * clamp (pitch_response_per_s p * dt) 0 1.
Proof. reflexivity. Qed.

Lemma impact_check_pitch_eff p s : pitch_eff (impact_check p s) = pitch_eff s.
Proof. frame. Qed.

Lemma record_history_pitch_eff p s st gr :
  pitch_eff (record_history p s st gr) = pitch_eff s.
Proof. frame. Qed.

Lemma step_sim_pitch_eff p s dt pitch_in yaw_in rng :
  alive s = true ->
  pitch_eff (fst (step_sim p s dt pitch_in yaw_in rng))
  = pitch_eff (update_controls p s dt pitch_in yaw_in).
Proof.
  intros Ha; rewrite step_sim_alive by exact Ha; simpl fst.
  rewrite impact_check_pitch_eff; unfold before_impact.
  rewrite record_history_pitch_eff; reflexivity.
Qed.

Lemma step_sim_bank p s dt pitch_in yaw_in rng :
  alive s = true ->
  bank_deg (fst (step_sim p s dt pitch_in yaw_in rng))
  = bank_deg (update_controls p s dt pitch_in yaw_in).
Proof.
  intros Ha; rewrite step_sim_alive by exact Ha; simpl fst.
  rewrite impact_check_bank; unfold before_impact.
  rewrite record_history_bank; reflexivity.
Qed.

Lemma bank_fraction_ext p s1 s2 :
  bank_deg s1 = bank_deg s2 -> bank_fraction p s1 = bank_fraction p s2.
Proof. intros H; unfold bank_fraction; rewrite H; reflexivity. Qed.

Lemma stall_flag_spec p s :
  stall_flag p s = true <->
  (pitch_eff s > stall_pitch_eff p \/ v_air_mps s < stall_v p).
Proof.
  unfold stall_flag; rewrite orb_true_iff, rgtb_true, rltb_true; tauto.
Qed.

(** C5.  In a step from a live state the stall flag is
    [pitch_eff > stall_pitch_eff or v_air < stall_v], on the pitch
    authority after the lag update (the one the step stores) and the
    airspeed before the energy update.  When it holds the glide ratio
    of the step is [stall_gr_factor * (gr_min + (gr_max - gr_min) *
    (pitch_eff + 1) / 2)] and the sink rate carries the extra factor
    [stall_sink_boost]; when it does not, neither factor is applied.
    The sink rate is what the altitude is integrated with, and the
    glide ratio and the flag are what a sample appended in the step
    records. *)
Theorem stall_penalty p s dt pitch_in yaw_in rng (Ha : alive s = true) :
  let s1 := update_controls p s dt pitch_in yaw_in in
  let s' := fst (step_sim p s dt pitch_in yaw_in rng) in
  let pe := pitch_eff s' in
  let v := v_air_mps s in
  let stalled := pe > stall_pitch_eff p \/ v < stall_v p in
  let base_gr := gr_min p + (gr_max p - gr_min p) * (pe + 1) / 2 in
  let sink_of gr :=
    v * sin (PyMath.atan2 1 (Rmax gr 0.1))
    * (1 + bank_sink_factor p * bank_fraction p s' ^ 2) in
  pe = pitch_eff s
       + (mix_pitch_eff (clamp (pitch_cmd s + pitch_in * 0.9 * dt) (-1) 1)
            (clamp yaw_in (-1) 1)
          - pitch_eff s) * clamp (pitch_response_per_s p * dt) 0 1
  /\ (stall_flag p s1 = true <-> stalled)
  /\ (stalled ->
        glide_ratio p s1 = stall_gr_factor p * base_gr
        /\ sink_rate p s1
           = sink_of (stall_gr_factor p * base_gr) * stall_sink_boost p)
  /\ (~ stalled ->
        glide_ratio p s1 = base_gr /\ sink_rate p s1 = sink_of base_gr)
  /\ alt_m (after_kinematics p s dt pitch_in yaw_in rng)
     = alt_m s - sink_rate p s1 * dt
  /\ (forall smp, hist s' = hist s ++ [smp] ->
        h_gr smp = glide_ratio p s1
        /\ h_stall smp = if stall_flag p s1 then 1 else 0).
Proof.
  cbv zeta.
  rewrite (step_sim_pitch_eff p s dt pitch_in yaw_in rng Ha).
  rewrite (bank_fraction_ext p _ _ (step_sim_bank p s dt pitch_in yaw_in rng Ha)).
  set (s1 := update_controls p s dt pitch_in yaw_in).
  assert (Hv : v_air_mps s = v_air_mps s1) by reflexivity.
  rewrite Hv.
  assert (Hgr : compute_glide_ratio p (pitch_eff s1)
                = gr_min p + (gr_max p - gr_min p) * (pitch_eff s1 + 1) / 2)
    by (unfold compute_glide_ratio; lra).
  split; [apply update_controls_pitch_eff|].
  split; [apply stall_flag_spec|].
  split; [|split; [|split; [reflexivity|]]].
  - intros Hst; apply stall_flag_spec in Hst.
    assert (Hg : glide_ratio p s1
                 = stall_gr_factor p
                   * (gr_min p + (gr_max p - gr_min p) * (pitch_eff s1 + 1) / 2))
      by (unfold glide_ratio; rewrite Hst, Hgr; lra).
    split; [exact Hg|].
    unfold sink_rate, flight_path_angle; rewrite Hst, Hg; reflexivity.
  - intros Hst.
    assert (Hf : stall_flag p s1 = false).
    { destruct (stall_flag p s1) eqn:E; [|reflexivity].
      exfalso; apply Hst, stall_flag_spec; exact E. }
    assert (Hg : glide_ratio p s1
                 = gr_min p + (gr_max p - gr_min p) * (pitch_eff s1 + 1) / 2)
      by (unfold glide_ratio; rewrite Hf, Hgr; reflexivity).
    split; [exact Hg|].
    unfold sink_rate, flight_path_angle; rewrite Hf, Hg; reflexivity.
  - intros smp Hsmp.
    rewrite (step_sim_hist p s dt pitch_in yaw_in rng Ha) in Hsmp.
    cbv zeta in Hsmp; fold s1 in Hsmp.
    destruct (sample_due _).
    + apply app_inj_tail in Hsmp; destruct Hsmp as [_ <-]; split; reflexivity.
    + exfalso.
      apply (f_equal (@length HistSample)) in Hsmp.
      rewrite length_app in Hsmp; simpl in Hsmp; lia.
Qed.

Lemma stall_penalty_witness :
  let p := default_params in
  let s := reset_state default_params in
  let s1 := update_controls p s 1 0 0 in
  let s' := fst (step_sim p s 1 0 0 (const_source 0.5)) in
  let pe := pitch_eff s' in
  let v := v_air_mps s in
  let stalled := pe > stall_pitch_eff p \/ v < stall_v p in
  let base_gr := gr_min p + (gr_max p - gr_min p) * (pe + 1) / 2 in
  let sink_of gr :=
    v * sin (PyMath.atan2 1 (Rmax gr 0.1))
    * (1 + bank_sink_factor p * bank_fraction p s' ^ 2) in
  pe = pitch_eff s
       + (mix_pitch_eff (clamp (pitch_cmd s + 0 * 0.9 * 1) (-1) 1)
            (clamp 0 (-1) 1)
          - pitch_eff s) * clamp (pitch_response_per_s p * 1) 0 1
  /\ (stall_flag p s1 = true <-> stalled)
  /\ (stalled ->
        glide_ratio p s1 = stall_gr_factor p * base_gr
        /\ sink_rate p s1
           = sink_of (stall_gr_factor p * base_gr) * stall_sink_boost p)
  /\ (~ stalled ->
        glide_ratio p s1 = base_gr /\ sink_rate p s1 = sink_of base_gr)
  /\ alt_m (after_kinematics p s 1 0 0 (const_source 0.5))
     = alt_m s - sink_rate p s1 * 1
  /\ (forall smp, hist s' = hist s ++ [smp] ->
        h_gr smp = glide_ratio p s1
        /\ h_stall smp = if stall_flag p s1 then 1 else 0).
Proof.
  exact (stall_penalty default_params (reset_state default_params)
           1 0 0 (const_source 0.5) eq_refl).
Defined.

(** Both branches occur under [default_params]: the trim state is not
    stalled, and the same state at 17 m/s is. *)
Lemma trim_state_not_stalled :
  stall_flag default_params (reset_state default_params) = false
  /\ glide_ratio default_params (reset_state default_params) = 12.05.
Proof.
  assert (H : stall_flag default_params (reset_state default_params) = false).
  { unfold stall_flag; apply orb_false_iff; split.
    - apply rgtb_false; simpl; lra.
    - apply rltb_false; simpl; lra. }
  split; [exact H|].
  unfold glide_ratio; rewrite H; unfold compute_glide_ratio; simpl; lra.
Qed.

Lemma slow_state_stalled :
  let s := {| x_m := 0; y_m := 0; alt_m := 900; heading_rad := 0;
              pitch_cmd := 0.15; yaw_cmd := 0; left_rv := 0; right_rv := 0;
              pitch_eff := 0.15; yaw_eff := 0; bank_deg := 0;
              v_air_mps := 17; t_s := 0;
              alive := true; impact := None; hist := [] |} in
  stall_flag default_params s = true
  /\ glide_ratio default_params s = 0.55 * 12.05.
Proof.
  cbv zeta.
  match goal with |- stall_flag ?p ?s = true /\ _ =>
    assert (H : stall_flag p s = true)
  end.
  { unfold stall_flag; apply orb_true_iff; right.
    apply rltb_true; simpl; lra. }
  split; [exact H|].
  unfold glide_ratio; rewrite H; unfold compute_glide_ratio; simpl; lra.
Qed.

(** ** Time steps that are zero or negative *)

Lemma impact_check_heading p s : heading_rad (impact_check p s) = heading_rad s.
Proof. frame. Qed.

Lemma impact_check_cmds p s :
  pitch_cmd (impact_check p s) = pitch_cmd s
  /\ yaw_cmd (impact_check p s) = yaw_cmd s.
Proof. split; frame. Qed.

Lemma record_history_heading p s st gr :
  heading_rad (record_history p s st gr) = heading_rad s.
Proof. frame. Qed.

Lemma record_history_cmds p s st gr :
  pitch_cmd (record_history p s st gr) = pitch_cmd s
  /\ yaw_cmd (record_history p s st gr) = yaw_cmd s.
Proof. split; frame. Qed.

Lemma step_sim_cmds p s dt pitch_in yaw_in rng :
  alive s = true ->
  let s' := fst (step_sim p s dt pitch_in yaw_in rng) in
  pitch_cmd s' = clamp (pitch_cmd s + pitch_in * 0.9 * dt) (-1) 1
  /\ yaw_cmd s' = clamp yaw_in (-1) 1.
Proof.
  intros Ha; cbv zeta; rewrite step_sim_alive by exact Ha; simpl fst.
  destruct (impact_check_cmds p (before_impact p s dt pitch_in yaw_in rng))
    as [-> ->].
  unfold before_impact.
  match goal with |- context [record_history ?p ?s ?st ?gr] =>
    destruct (record_history_cmds p s st gr) as [-> ->]
  end.
  split; reflexivity.
Qed.

Lemma step_sim_t p s dt pitch_in yaw_in rng :
  alive s = true ->
  t_s (fst (step_sim p s dt pitch_in yaw_in rng)) = t_s s + dt.
Proof.
  intros Ha; rewrite step_sim_alive by exact Ha; simpl fst.
  rewrite impact_check_t; apply before_impact_t.
Qed.

Lemma step_sim_heading p s dt pitch_in yaw_in rng :
  alive s = true ->
  heading_rad (fst (step_sim p s dt pitch_in yaw_in rng))
  = heading_rad s
    + PyMath.radians (yaw_rate_deg_s p)
      * yaw_eff (update_controls p s dt pitch_in yaw_in) * dt.
Proof.
  intros Ha; rewrite step_sim_alive by exact Ha; simpl fst.
  rewrite impact_check_heading; unfold before_impact.
  rewrite record_history_heading; reflexivity.
Qed.

(** The position after a live step: the old one plus ground velocity
    times [dt]. *)
Lemma step_sim_xy p s dt pitch_in yaw_in rng :
  alive s = true ->
  let s1 := update_controls p s dt pitch_in yaw_in in
  let s' := fst (step_sim p s dt pitch_in yaw_in rng) in
  let u1 := fst (random_random rng) in
  let u2 := fst (random_random (snd (random_random rng))) in
  x_m s' = x_m s
           + (fwd_speed p s1 * cos (heading_rad s')
              + (wind_x_mps p + (u1 * 2 - 1) * gust_mps p)) * dt
  /\ y_m s' = y_m s
              + (fwd_speed p s1 * sin (heading_rad s')
                 + (wind_y_mps p + (u2 * 2 - 1) * gust_mps p)) * dt.
Proof.
  intros Ha; cbv zeta.
  rewrite (step_sim_heading p s dt pitch_in yaw_in rng Ha).
  rewrite step_sim_alive by exact Ha; simpl fst.
  destruct (impact_check_xy p (before_impact p s dt pitch_in yaw_in rng))
    as [-> ->].
  destruct (before_impact_xy p s dt pitch_in yaw_in rng) as [-> ->].
  split; reflexivity.
Qed.

(** The altitude after a live step: integrated with the sink rate,
    then held at ground level. *)
Lemma step_sim_alt p s dt pitch_in yaw_in rng :
  alive s = true ->
  let alt := alt_m s - sink_rate p (update_controls p s dt pitch_in yaw_in) * dt in
  let s' := fst (step_sim p s dt pitch_in yaw_in rng) in
  (ground_alt_m p < alt -> alt_m s' = alt /\ alive s' = true)
  /\ (alt <= ground_alt_m p -> alt_m s' = ground_alt_m p /\ alive s' = false).
Proof.
  intros Ha; cbv zeta.
  rewrite step_sim_alive by exact Ha; simpl fst.
  rewrite <- (after_kinematics_alt p s dt pitch_in yaw_in rng).
  rewrite <- before_impact_alt.
  split; intros H.
  - rewrite impact_check_miss by exact H; split; [reflexivity|].
    unfold before_impact; rewrite record_history_alive; exact Ha.
  - rewrite impact_check_hit by exact H; split; reflexivity.
Qed.

Lemma mix_zero_yaw pc : mix_yaw_eff pc 0 = 0.
Proof.
  rewrite mix_yaw_eff_half; unfold mix_left, mix_right; simpl.
  rewrite (clamp_inside 0) by lra.
  rewrite Rplus_0_r, Rminus_0_r; lra.
Qed.

Lemma sink_rate_pos p s :
  0 < v_air_mps s -> 0 <= bank_sink_factor p -> 0 < stall_sink_boost p ->
  0 < sink_rate p s.
Proof.
  intros Hv Hb Hs.
  pose proof (sin_flight_path_pos p s) as Hsin.
  pose proof (bank_fraction_range p s) as Hf.
  assert (H1 : 0 < v_air_mps s * sin (flight_path_angle p s))
    by (apply Rmult_lt_0_compat; lra).
  assert (H2 : 0 < 1 + bank_sink_factor p * bank_fraction p s ^ 2).
  { assert (0 <= bank_fraction p s ^ 2) by (apply pow_le; lra).
    assert (0 <= bank_sink_factor p * bank_fraction p s ^ 2)
      by (apply Rmult_le_pos; lra).
    lra. }
  unfold sink_rate; cbv zeta; destruct (stall_flag p s).
  - apply Rmult_lt_0_compat; [apply Rmult_lt_0_compat|]; assumption.
  - apply Rmult_lt_0_compat; assumption.
Qed.

Lemma update_controls_yaw_eff p s dt pitch_in yaw_in :
  yaw_eff (update_controls p s dt pitch_in yaw_in)
  = mix_yaw_eff (clamp (pitch_cmd s + pitch_in * 0.9 * dt) (-1) 1)
      (clamp yaw_in (-1) 1).
Proof. reflexivity. Qed.

(** Under [default_params], from the reset state and with centred
    controls, the heading of a step stays at zero. *)
Lemma default_straight_heading dt rng :
  heading_rad (fst (step_sim default_params (reset_state default_params)
                      dt 0 0 rng)) = 0.
Proof.
  rewrite step_sim_heading by reflexivity.
  rewrite update_controls_yaw_eff, (clamp_inside 0) by lra.
  rewrite mix_zero_yaw.
  simpl; unfold PyMath.radians; field.
Qed.

(** C7, as stated, fails.  Under [default_params], from the reset state:
    a step with [dt = -1] moves the aircraft backwards and upwards and
    sets the clock back; a step with [dt = 0] and full yaw input leaves
    the position alone but stores the yaw command and appends the first
    history sample. *)
Lemma nonpositive_dt_not_noop :
  let p := default_params in
  let s := reset_state default_params in
  let back := fst (step_sim p s (-1) 0 0 (const_source 0.5)) in
  let still := fst (step_sim p s 0 0 1 (const_source 0.5)) in
  alive s = true
  /\ (-1 <= 0 /\ x_m back < x_m s /\ alt_m back > alt_m s
      /\ t_s back = t_s s - 1 /\ back <> s)
  /\ (0 <= 0 /\ yaw_cmd s = 0 /\ yaw_cmd still = 1
      /\ hist s = [] /\ length (hist still) = 1%nat /\ still <> s).
Proof.
  cbv zeta.
  set (s := reset_state default_params); set (p := default_params).
  assert (Ha : alive s = true) by reflexivity.
  assert (Hx : x_m (fst (step_sim p s (-1) 0 0 (const_source 0.5))) < x_m s).
  { destruct (step_sim_xy p s (-1) 0 0 (const_source 0.5) Ha) as [Hx _].
    cbv zeta in Hx; rewrite Hx.
    unfold p, s; rewrite default_straight_heading, cos_0.
    pose proof (cos_flight_path_pos default_params
      (update_controls default_params (reset_state default_params) (-1) 0 0)) as Hc.
    unfold fwd_speed.
    change (v_air_mps (update_controls default_params
              (reset_state default_params) (-1) 0 0)) with 26.
    simpl; lra. }
  assert (Ht : t_s (fst (step_sim p s (-1) 0 0 (const_source 0.5))) = t_s s - 1).
  { rewrite step_sim_t by exact Ha; lra. }
  assert (Hy : yaw_cmd (fst (step_sim p s 0 0 1 (const_source 0.5))) = 1).
  { destruct (step_sim_cmds p s 0 0 1 (const_source 0.5) Ha) as [_ Hy].
    cbv zeta in Hy; rewrite Hy; apply clamp_inside; lra. }
  split; [exact Ha|]. split.
  - split; [lra|]. split; [exact Hx|]. split; [|split; [exact Ht|]].
    + destruct (step_sim_alt p s (-1) 0 0 (const_source 0.5) Ha) as [Hup _].
      cbv zeta in Hup.
      pose proof (sink_rate_pos p (update_controls p s (-1) 0 0)) as Hs.
      assert (0 < sink_rate p (update_controls p s (-1) 0 0))
        by (apply Hs; simpl; lra).
      assert (Hgnd : ground_alt_m p
                     < alt_m s - sink_rate p (update_controls p s (-1) 0 0) * -1)
        by (simpl; lra).
      destruct (Hup Hgnd) as [Halt _]; rewrite Halt; simpl; lra.
    + intros E; rewrite E in Hx; lra.
  - split; [lra|]. split; [reflexivity|]. split; [exact Hy|].
    split; [reflexivity|]. split.
    + rewrite step_sim_hist by exact Ha; reflexivity.
    + intros E; rewrite E in Hy; simpl in Hy; lra.
Qed.

(** ** Time steps that are zero or negative: what the step does *)

Lemma step_sim_surfaces p s dt pitch_in yaw_in rng :
  alive s = true ->
  let s' := fst (step_sim p s dt pitch_in yaw_in rng) in
  let pc := clamp (pitch_cmd s + pitch_in * 0.9 * dt) (-1) 1 in
  let yc := clamp yaw_in (-1) 1 in
  left_rv s' = mix_left pc yc /\ right_rv s' = mix_right pc yc
  /\ yaw_eff s' = mix_yaw_eff pc yc.
Proof.
  intros Ha; cbv zeta.
  rewrite step_sim_alive by exact Ha; simpl fst.
  unfold before_impact, impact_check, record_history.
  repeat match goal with
         | |- context [if ?c then _ else _] => destruct c
         end; repeat split; reflexivity.
Qed.

Lemma zero_rate_blend r x target : x + (target - x) * clamp (r * 0) 0 1 = x.
Proof.
  rewrite Rmult_0_r, (clamp_inside 0) by lra; lra.
Qed.

(** C7, amended.  A step from a live state with [dt <= 0] is carried
    out like any other step.  It takes its square root of a
    non-negative number and divides by [bank_max_deg] only when that
    is positive.  It sets the clock to [t_s + dt], the position to
    [x + vx*dt], [y + vy*dt], the heading to [heading + yaw_rate*dt]
    and the altitude to [alt - sink*dt] (held at ground level, with
    the impact transition, when that is not above it); it stores the
    clamped commands and the mixer's surfaces and yaw authority for
    them; and it appends a history sample exactly when the history is
    empty or [t_s + dt] is more than 0.10 past the last sample.  With
    [dt = 0] the displacement is zero: position, heading, clock, pitch
    authority and bank angle stay as they are, [pitch_cmd] is only
    clamped, and the altitude stays and the state stays alive when the
    aircraft is above ground level. *)
Theorem nonpositive_dt_step p s dt pitch_in yaw_in rng
    (Ha : alive s = true) (Hdt : dt <= 0) :
  let s' := fst (step_sim p s dt pitch_in yaw_in rng) in
  let s1 := update_controls p s dt pitch_in yaw_in in
  let pc := clamp (pitch_cmd s + pitch_in * 0.9 * dt) (-1) 1 in
  let yc := clamp yaw_in (-1) 1 in
  let vx := fwd_speed p s1 * cos (heading_rad s')
            + (wind_x_mps p
               + (fst (random_random rng) * 2 - 1) * gust_mps p) in
  let vy := fwd_speed p s1 * sin (heading_rad s')
            + (wind_y_mps p
               + (fst (random_random (snd (random_random rng))) * 2 - 1)
                 * gust_mps p) in
  let alt := alt_m s - sink_rate p s1 * dt in
  let due :=
    hist s = [] \/
    exists l, hist_last (hist s) = Some l /\ (t_s s + dt) - h_t_s l > 0.10 in
  (0 <= 2 * kinetic_term p (after_kinematics p s dt pitch_in yaw_in rng) dt
   /\ (bank_max_deg p <= 0
       \/ (bank_max_deg p <> 0
           /\ bank_fraction p s1 = clamp (bank_deg s1 / bank_max_deg p) 0 1)))
  /\ (t_s s' = t_s s + dt
      /\ x_m s' = x_m s + vx * dt /\ y_m s' = y_m s + vy * dt
      /\ heading_rad s'
         = heading_rad s + PyMath.radians (yaw_rate_deg_s p) * yaw_eff s' * dt
      /\ (ground_alt_m p < alt -> alt_m s' = alt /\ alive s' = true)
      /\ (alt <= ground_alt_m p ->
          alt_m s' = ground_alt_m p /\ alive s' = false))
  /\ (pitch_cmd s' = pc /\ yaw_cmd s' = yc
      /\ left_rv s' = mix_left pc yc /\ right_rv s' = mix_right pc yc
      /\ yaw_eff s' = mix_yaw_eff pc yc)
  /\ ((due -> exists smp, hist s' = hist s ++ [smp] /\ h_t_s smp = t_s s + dt)
      /\ (~ due -> hist s' = hist s))
  /\ (dt = 0 ->
      x_m s' = x_m s /\ y_m s' = y_m s
      /\ heading_rad s' = heading_rad s
      /\ t_s s' = t_s s
      /\ pitch_eff s' = pitch_eff s
      /\ bank_deg s' = bank_deg s
      /\ pitch_cmd s' = clamp (pitch_cmd s) (-1) 1
      /\ (ground_alt_m p < alt_m s -> alt_m s' = alt_m s /\ alive s' = true)
      /\ (alt_m s <= ground_alt_m p ->
          alt_m s' = ground_alt_m p /\ alive s' = false)).
Proof.
  cbv zeta.
  destruct (step_sim_xy p s dt pitch_in yaw_in rng Ha) as [Hx Hy].
  destruct (step_sim_cmds p s dt pitch_in yaw_in rng Ha) as [Hpc Hyc].
  destruct (step_sim_alt p s dt pitch_in yaw_in rng Ha) as [Hup Hdown].
  destruct (step_sim_surfaces p s dt pitch_in yaw_in rng Ha) as [Hl [Hr Hye]].
  pose proof (step_sim_t p s dt pitch_in yaw_in rng Ha) as Ht.
  pose proof (step_sim_heading p s dt pitch_in yaw_in rng Ha) as Hh.
  pose proof (step_sim_hist p s dt pitch_in yaw_in rng Ha) as Hhist.
  pose proof (sample_due_spec
    (update_energy p (after_kinematics p s dt pitch_in yaw_in rng) dt)) as Hd.
  cbv zeta in Hx, Hy, Hpc, Hyc, Hup, Hdown, Hl, Hr, Hye, Hhist.
  simpl in Hd.
  assert (Hye1 : yaw_eff (update_controls p s dt pitch_in yaw_in)
                 = yaw_eff (fst (step_sim p s dt pitch_in yaw_in rng)))
    by (rewrite Hye; reflexivity).
  rewrite Hye1 in Hh.
  split; [split; [apply energy_sqrt_defined | apply bank_frac_div_defined]|].
  split; [repeat split; try assumption; [apply Hup | apply Hup
                                         | apply Hdown | apply Hdown];
          assumption|].
  split; [repeat split; assumption|].
  split; [split|].
  - intros Hdue; apply Hd in Hdue; rewrite Hdue in Hhist.
    eexists; split; [exact Hhist | reflexivity].
  - intros Hn; destruct (sample_due _) eqn:E; [|exact Hhist].
    exfalso; apply Hn, Hd; reflexivity.
  - intros ->.
    rewrite Rmult_0_r, Rminus_0_r in Hup, Hdown.
    repeat split.
    + rewrite Hx; lra.
    + rewrite Hy; lra.
    + rewrite Hh; lra.
    + rewrite Ht; lra.
    + rewrite step_sim_pitch_eff, update_controls_pitch_eff by exact Ha.
      apply zero_rate_blend.
    + rewrite step_sim_bank, update_controls_bank by exact Ha.
      apply zero_rate_blend.
    + rewrite Hpc, Rmult_0_r, Rplus_0_r; reflexivity.
    + apply Hup; assumption.
    + apply Hup; assumption.
    + apply Hdown; assumption.
    + apply Hdown; assumption.
Qed.

Lemma backward_step_example : -1 <= 0.
Proof. lra. Defined.

Lemma nonpositive_dt_step_witness :
  let p := default_params in
  let s := reset_state default_params in
  let dt := -1 in
  let pitch_in := 0 in
  let yaw_in := 1 in
  let rng := const_source 0.5 in
  let s' := fst (step_sim p s dt pitch_in yaw_in rng) in
  let s1 := update_controls p s dt pitch_in yaw_in in
  let pc := clamp (pitch_cmd s + pitch_in * 0.9 * dt) (-1) 1 in
  let yc := clamp yaw_in (-1) 1 in
  let vx := fwd_speed p s1 * cos (heading_rad s')
            + (wind_x_mps p
               + (fst (random_random rng) * 2 - 1) * gust_mps p) in
  let vy := fwd_speed p s1 * sin (heading_rad s')
            + (wind_y_mps p
               + (fst (random_random (snd (random_random rng))) * 2 - 1)
                 * gust_mps p) in
  let alt := alt_m s - sink_rate p s1 * dt in
  let due :=
    hist s = [] \/
    exists l, hist_last (hist s) = Some l /\ (t_s s + dt) - h_t_s l > 0.10 in
  (0 <= 2 * kinetic_term p (after_kinematics p s dt pitch_in yaw_in rng) dt
   /\ (bank_max_deg p <= 0
       \/ (bank_max_deg p <> 0
           /\ bank_fraction p s1 = clamp (bank_deg s1 / bank_max_deg p) 0 1)))
  /\ (t_s s' = t_s s + dt
      /\ x_m s' = x_m s + vx * dt /\ y_m s' = y_m s + vy * dt
      /\ heading_rad s'
         = heading_rad s + PyMath.radians (yaw_rate_deg_s p) * yaw_eff s' * dt
      /\ (ground_alt_m p < alt -> alt_m s' = alt /\ alive s' = true)
      /\ (alt <= ground_alt_m p ->
          alt_m s' = ground_alt_m p /\ alive s' = false))
  /\ (pitch_cmd s' = pc /\ yaw_cmd s' = yc
      /\ left_rv s' = mix_left pc yc /\ right_rv s' = mix_right pc yc
      /\ yaw_eff s' = mix_yaw_eff pc yc)
  /\ ((due -> exists smp, hist s' = hist s ++ [smp] /\ h_t_s smp = t_s s + dt)
      /\ (~ due -> hist s' = hist s))
  /\ (dt = 0 ->
      x_m s' = x_m s /\ y_m s' = y_m s
      /\ heading_rad s' = heading_rad s
      /\ t_s s' = t_s s
      /\ pitch_eff s' = pitch_eff s
      /\ bank_deg s' = bank_deg s
      /\ pitch_cmd s' = clamp (pitch_cmd s) (-1) 1
      /\ (ground_alt_m p < alt_m s -> alt_m s' = alt_m s /\ alive s' = true)
      /\ (alt_m s <= ground_alt_m p ->
          alt_m s' = ground_alt_m p /\ alive s' = false)).
Proof.
  exact (nonpositive_dt_step default_params (reset_state default_params)
           (-1) 0 1 (const_source 0.5) eq_refl backward_step_example).
Defined.


(** * Further properties of the integrator *)

(** ** The mixer: authority after saturation *)

Lemma mix_pitch_eff_range pc yc : -1 <= mix_pitch_eff pc yc <= 1.
Proof. unfold mix_pitch_eff; simpl; apply clamp_range; lra. Qed.

Lemma mix_yaw_eff_range pc yc : -1 <= mix_yaw_eff pc yc <= 1.
Proof. unfold mix_yaw_eff; simpl; apply clamp_range; lra. Qed.

Lemma ruddervator_mix_components pc yc :
  ruddervator_mix pc yc
  = (mix_left pc yc, mix_right pc yc, mix_pitch_eff pc yc, mix_yaw_eff pc yc).
Proof. reflexivity. Qed.

Lemma mix_left_eq pc yc :
  mix_left pc yc = clamp (clamp pc (-1) 1 + clamp yc (-1) 1) (-1) 1.
Proof. reflexivity. Qed.

Lemma mix_right_eq pc yc :
  mix_right pc yc = clamp (clamp pc (-1) 1 - clamp yc (-1) 1) (-1) 1.
Proof. reflexivity. Qed.

Lemma clamp_odd x : clamp (- x) (-1) 1 = - clamp x (-1) 1.
Proof. clamp_cases. Qed.

(** X15.  The effective commands always lie in the diamond
    [|pitch_eff| + |yaw_eff| <= 1], and all four outputs in [-1,1]:
    full authority on one axis leaves none on the other. *)
Theorem mixer_authority_diamond (pitch_cmd yaw_cmd : R) :
  -1 <= mix_left pitch_cmd yaw_cmd <= 1
  /\ -1 <= mix_right pitch_cmd yaw_cmd <= 1
  /\ Rabs (mix_pitch_eff pitch_cmd yaw_cmd)
     + Rabs (mix_yaw_eff pitch_cmd yaw_cmd) <= 1.
Proof.
  pose proof (mix_left_range pitch_cmd yaw_cmd) as Hl.
  pose proof (mix_right_range pitch_cmd yaw_cmd) as Hr.
  split; [exact Hl|]. split; [exact Hr|].
  rewrite mix_pitch_eff_half, mix_yaw_eff_half.
  unfold Rabs; repeat destruct (Rcase_abs _); lra.
Qed.

(** X18.  Reversing the yaw command swaps the two surfaces and reverses the
    effective yaw; reversing both commands reverses everything. *)
Theorem mixer_mirror (pitch_cmd yaw_cmd : R) :
  mix_left pitch_cmd (- yaw_cmd) = mix_right pitch_cmd yaw_cmd
  /\ mix_right pitch_cmd (- yaw_cmd) = mix_left pitch_cmd yaw_cmd
  /\ mix_pitch_eff pitch_cmd (- yaw_cmd) = mix_pitch_eff pitch_cmd yaw_cmd
  /\ mix_yaw_eff pitch_cmd (- yaw_cmd) = - mix_yaw_eff pitch_cmd yaw_cmd
  /\ mix_left (- pitch_cmd) (- yaw_cmd) = - mix_left pitch_cmd yaw_cmd
  /\ mix_right (- pitch_cmd) (- yaw_cmd) = - mix_right pitch_cmd yaw_cmd.
Proof.
  assert (Hl : mix_left pitch_cmd (- yaw_cmd) = mix_right pitch_cmd yaw_cmd).
  { rewrite mix_left_eq, mix_right_eq, clamp_odd; f_equal; lra. }
  assert (Hr : mix_right pitch_cmd (- yaw_cmd) = mix_left pitch_cmd yaw_cmd).
  { rewrite mix_left_eq, mix_right_eq, clamp_odd; f_equal; lra. }
  split; [exact Hl|]. split; [exact Hr|].
  split; [rewrite !mix_pitch_eff_half, Hl, Hr; lra|].
  split; [rewrite !mix_yaw_eff_half, Hl, Hr; lra|].
  split.
  - rewrite !mix_left_eq, !clamp_odd.
    rewrite <- (clamp_odd (clamp pitch_cmd (-1) 1 + clamp yaw_cmd (-1) 1)).
    f_equal; lra.
  - rewrite !mix_right_eq, !clamp_odd.
    rewrite <- (clamp_odd (clamp pitch_cmd (-1) 1 - clamp yaw_cmd (-1) 1)).
    f_equal; lra.
Qed.

(** ** Runs: further tools *)

Lemma run_invariant_ticks (p : SimParams) (P : SimState -> Prop)
    (Q : Tick -> Prop) :
  (forall s k rng, Q k -> P s -> P (fst (tick p (s, rng) k))) ->
  forall ticks w, Forall Q ticks -> P (fst w) -> P (fst (run p w ticks)).
Proof.
  intros Hstep ticks; induction ticks as [|k ticks IH]; intros [s rng] HQ Hw.
  - exact Hw.
  - inversion HQ as [|? ? Hk Hrest]; subst.
    rewrite run_cons; apply IH; [exact Hrest|].
    apply Hstep; assumption.
Qed.

Lemma run_stays_dead p ticks w :
  alive (fst w) = false -> alive (fst (run p w ticks)) = false.
Proof. intros H; rewrite run_dead by exact H; exact H. Qed.

Lemma run_alive_prefix p t1 t2 w :
  alive (fst (run p w (t1 ++ t2))) = true -> alive (fst (run p w t1)) = true.
Proof.
  rewrite run_app; intros H.
  destruct (alive (fst (run p w t1))) eqn:E; [reflexivity|].
  rewrite run_stays_dead in H by exact E; discriminate.
Qed.

Lemma run_alive_start p ticks w :
  alive (fst (run p w ticks)) = true -> alive (fst w) = true.
Proof. intros H; apply (run_alive_prefix p [] ticks w); exact H. Qed.

(** ** Controls stay in range *)

Lemma impact_check_controls p s :
  controls_in_range s -> controls_in_range (impact_check p s).
Proof.
  unfold impact_check; destruct (rleb _ _); [|tauto].
  unfold controls_in_range; simpl; tauto.
Qed.

Lemma record_history_controls p s st gr :
  controls_in_range s -> controls_in_range (record_history p s st gr).
Proof.
  unfold record_history; destruct (sample_due s); [|tauto].
  unfold controls_in_range; simpl; tauto.
Qed.

Lemma update_controls_in_range p s dt pitch_in yaw_in :
  -1 <= pitch_eff s <= 1 ->
  controls_in_range (update_controls p s dt pitch_in yaw_in).
Proof.
  intros Hpe.
  set (pc := clamp (pitch_cmd s + pitch_in * 0.9 * dt) (-1) 1).
  set (yc := clamp yaw_in (-1) 1).
  assert (Hl : left_rv (update_controls p s dt pitch_in yaw_in) = mix_left pc yc)
    by reflexivity.
  assert (Hr : right_rv (update_controls p s dt pitch_in yaw_in) = mix_right pc yc)
    by reflexivity.
  assert (Hy : yaw_eff (update_controls p s dt pitch_in yaw_in) = mix_yaw_eff pc yc)
    by reflexivity.
  unfold controls_in_range.
  rewrite Hl, Hr, Hy, update_controls_pitch_eff; fold pc yc.
  split; [apply clamp_range; lra|].
  split; [apply clamp_range; lra|].
  split; [apply mix_left_range|].
  split; [apply mix_right_range|].
  split; [|apply mix_yaw_eff_range].
  apply blend_range;
    [exact Hpe | apply mix_pitch_eff_range | apply clamp_range; lra].
Qed.

Lemma step_sim_controls p s dt pitch_in yaw_in rng :
  controls_in_range s ->
  controls_in_range (fst (step_sim p s dt pitch_in yaw_in rng)).
Proof.
  intros Hc; destruct (alive s) eqn:Ha.
  - rewrite step_sim_alive by exact Ha; simpl fst.
    apply impact_check_controls; unfold before_impact.
    apply record_history_controls.
    pose proof (update_controls_in_range p s dt pitch_in yaw_in) as H.
    unfold controls_in_range in *; simpl in *; apply H; tauto.
  - rewrite step_sim_dead by exact Ha; exact Hc.
Qed.

(** X1.  In every state of every run from [reset_state] the pilot commands,
    both surface deflections and both effective authorities lie in
    [-1, 1], whatever the inputs, time steps and parameters. *)
Theorem controls_stay_in_range p (ticks : list Tick) (rng : RandomSource) :
  controls_in_range (fst (run p (reset_state p, rng) ticks)).
Proof.
  apply (run_invariant p controls_in_range).
  - intros; apply step_sim_controls; assumption.
  - unfold controls_in_range; simpl; lra.
Qed.

(** ** The flight state machine *)

Lemma step_sim_flight_consistent p s dt pitch_in yaw_in rng :
  flight_consistent p s ->
  flight_consistent p (fst (step_sim p s dt pitch_in yaw_in rng)).
Proof.
  intros Hc; destruct (alive s) eqn:Ha.
  - rewrite step_sim_alive by exact Ha; simpl fst.
    unfold flight_consistent in Hc; rewrite Ha in Hc.
    destruct (Rle_dec (alt_m (before_impact p s dt pitch_in yaw_in rng))
                (ground_alt_m p)) as [Hle|Hgt].
    + rewrite impact_check_hit by exact Hle.
      unfold flight_consistent; simpl; split; reflexivity.
    + rewrite impact_check_miss by lra.
      unfold flight_consistent, before_impact.
      rewrite record_history_alive, record_history_impact; simpl.
      rewrite Ha; exact Hc.
  - rewrite step_sim_dead by exact Ha; exact Hc.
Qed.

(** X2.  In every state of every run from [reset_state]: while [alive] holds
    there is no impact record; once it does not, the altitude is
    [ground_alt_m] and the record holds the state's own time and
    position, the distance from that position to the target, and
    whether that distance is within the target radius. *)
Theorem flight_state_machine p (ticks : list Tick) (rng : RandomSource) :
  let s := fst (run p (reset_state p, rng) ticks) in
  (alive s = true <-> impact s = None)
  /\ (alive s = false ->
      alt_m s = ground_alt_m p
      /\ exists r, impact s = Some r
           /\ i_t_s r = t_s s /\ i_x_m r = x_m s /\ i_y_m r = y_m s
           /\ i_miss_m r
              = PyMath.hypot (x_m s - target_x_m p) (y_m s - target_y_m p)
           /\ (i_on_target r = true <-> i_miss_m r <= target_radius_m p)).
Proof.
  cbv zeta.
  assert (H : flight_consistent p (fst (run p (reset_state p, rng) ticks))).
  { apply (run_invariant p (flight_consistent p)).
    - intros; apply step_sim_flight_consistent; assumption.
    - reflexivity. }
  unfold flight_consistent in H.
  destruct (alive (fst (run p (reset_state p, rng) ticks))).
  - split; [tauto | discriminate].
  - destruct H as [Halt Him]; split.
    + rewrite Him; split; discriminate.
    + intros _; split; [exact Halt|].
      eexists; split; [exact Him|]; simpl.
      repeat split; try reflexivity; apply rleb_true.
Qed.

(** X3.  After any step from a live state the aircraft is at or above
    ground level, and it is still alive exactly when the integrated
    altitude is above it. *)
Theorem step_ends_above_ground p s dt pitch_in yaw_in rng
    (Ha : alive s = true) :
  let s' := fst (step_sim p s dt pitch_in yaw_in rng) in
  let alt := alt_m s - sink_rate p (update_controls p s dt pitch_in yaw_in) * dt in
  ground_alt_m p <= alt_m s'
  /\ (alive s' = true <-> ground_alt_m p < alt)
  /\ (alive s' = true -> alt_m s' = alt).
Proof.
  cbv zeta.
  destruct (step_sim_alt p s dt pitch_in yaw_in rng Ha) as [Hup Hdown].
  cbv zeta in Hup, Hdown.
  destruct (Rle_dec (alt_m s - sink_rate p (update_controls p s dt pitch_in yaw_in) * dt)
              (ground_alt_m p)) as [Hle|Hgt].
  - destruct (Hdown Hle) as [E1 E2]; rewrite E1, E2.
    split; [lra|]. split; [split; [discriminate | lra] | discriminate].
  - assert (Hlt : ground_alt_m p
                  < alt_m s - sink_rate p (update_controls p s dt pitch_in yaw_in) * dt)
      by lra.
    destruct (Hup Hlt) as [E1 E2]; rewrite E1, E2.
    split; [lra|]. split; [tauto | reflexivity].
Qed.

(** ** Elapsed time *)

Lemma step_sim_alive_before p s dt pitch_in yaw_in rng :
  alive (fst (step_sim p s dt pitch_in yaw_in rng)) = true -> alive s = true.
Proof.
  intros H; destruct (alive s) eqn:Ha; [reflexivity|].
  rewrite step_sim_dead in H by exact Ha; simpl in H; congruence.
Qed.

(** X10.  If the aircraft is still flying after a run, every call of the run
    was a live step and the clock has advanced by the sum of the time
    steps. *)
Theorem flying_clock p (ticks : list Tick) (w : SimState * RandomSource)
    (Ha : alive (fst (run p w ticks)) = true) :
  t_s (fst (run p w ticks)) = t_s (fst w) + ticks_time ticks
  /\ rs_pos (snd (run p w ticks)) = (rs_pos (snd w) + 2 * length ticks)%nat.
Proof.
  revert w Ha; induction ticks as [|k ticks IH]; intros [s rng] Ha.
  - simpl; split; [lra | lia].
  - rewrite run_cons in *.
    pose proof (run_alive_start p ticks _ Ha) as Hk.
    unfold tick in Hk; simpl fst in Hk; simpl snd in Hk.
    pose proof (step_sim_alive_before p s _ _ _ _ Hk) as Hs.
    destruct (IH _ Ha) as [Ht Hr]; rewrite Ht, Hr.
    unfold tick; simpl fst; simpl snd.
    rewrite step_sim_t by exact Hs.
    rewrite step_sim_alive by exact Hs; simpl; split; [lra | lia].
Qed.

(** ** Descent *)

Lemma sink_rate_le p s :
  0 <= v_air_mps s -> 0 <= bank_sink_factor p -> 0 <= stall_sink_boost p ->
  sink_rate p s
  <= v_air_mps s * (1 + bank_sink_factor p) * Rmax 1 (stall_sink_boost p).
Proof.
  intros Hv Hb Hs.
  pose proof (sin_flight_path_pos p s) as Hsin.
  pose proof (SIN_bound (flight_path_angle p s)) as [_ Hsin1].
  pose proof (bank_fraction_range p s) as Hf.
  pose proof (Rmax_l 1 (stall_sink_boost p)) as Hm1.
  pose proof (Rmax_r 1 (stall_sink_boost p)) as Hm2.
  assert (H1 : 0 <= v_air_mps s * sin (flight_path_angle p s) <= v_air_mps s)
    by (split; nra).
  assert (Hf2 : 0 <= bank_fraction p s ^ 2 <= 1).
  { split; [apply pow_le; lra|]. simpl; nra. }
  assert (H2 : 1 <= 1 + bank_sink_factor p * bank_fraction p s ^ 2
               <= 1 + bank_sink_factor p) by (split; nra).
  assert (H3 : v_air_mps s * sin (flight_path_angle p s)
               * (1 + bank_sink_factor p * bank_fraction p s ^ 2)
               <= v_air_mps s * (1 + bank_sink_factor p)).
  { apply Rmult_le_compat; lra. }
  assert (H4 : 0 <= v_air_mps s * sin (flight_path_angle p s)
               * (1 + bank_sink_factor p * bank_fraction p s ^ 2))
    by (apply Rmult_le_pos; lra).
  unfold sink_rate; cbv zeta; destruct (stall_flag p s).
  - apply Rmult_le_compat; lra.
  - assert (0 <= v_air_mps s * (1 + bank_sink_factor p)) by lra.
    nra.
Qed.

Lemma step_alt_descends p s dt pitch_in yaw_in rng :
  0 <= bank_sink_factor p -> 0 <= stall_sink_boost p ->
  0 <= dt -> 0 <= v_air_mps s -> ground_alt_m p <= alt_m s ->
  ground_alt_m p <= alt_m (fst (step_sim p s dt pitch_in yaw_in rng)) <= alt_m s.
Proof.
  intros Hb Hs Hdt Hv Hg; destruct (alive s) eqn:Ha.
  - destruct (step_sim_alt p s dt pitch_in yaw_in rng Ha) as [Hup Hdown].
    cbv zeta in Hup, Hdown.
    pose proof (sink_rate_nonneg p (update_controls p s dt pitch_in yaw_in)
                  Hv Hb Hs) as Hsink.
    assert (0 <= sink_rate p (update_controls p s dt pitch_in yaw_in) * dt)
      by (apply Rmult_le_pos; assumption).
    destruct (Rle_dec (alt_m s - sink_rate p (update_controls p s dt pitch_in yaw_in) * dt)
                (ground_alt_m p)) as [Hle|Hgt].
    + destruct (Hdown Hle) as [-> _]; lra.
    + destruct Hup as [-> _]; lra.
  - rewrite step_sim_dead by exact Ha; simpl; lra.
Qed.

(** X4.  An unpowered glide never climbs.  With non-negative [v_min],
    [bank_sink_factor] and [stall_sink_boost], a start at or above
    ground level and time steps that are not negative, the altitude
    along a run from [reset_state] never rises and never goes below
    [ground_alt_m]. *)
Theorem glide_never_climbs p (t1 t2 : list Tick) (rng : RandomSource)
    (Hv : 0 <= v_min p <= v_trim p /\ v_trim p <= v_max p)
    (Hb : 0 <= bank_sink_factor p) (Hs : 0 <= stall_sink_boost p)
    (Hg : ground_alt_m p <= start_alt_m p)
    (H1 : Forall forward_tick t1) (H2 : Forall forward_tick t2) :
  ground_alt_m p <= alt_m (fst (run p (reset_state p, rng) (t1 ++ t2)))
  /\ alt_m (fst (run p (reset_state p, rng) (t1 ++ t2)))
     <= alt_m (fst (run p (reset_state p, rng) t1))
  /\ alt_m (fst (run p (reset_state p, rng) t1)) <= start_alt_m p.
Proof.
  set (Inv := fun s : SimState =>
                ground_alt_m p <= alt_m s /\ v_min p <= v_air_mps s <= v_max p).
  assert (Hstep : forall bound s k rng0,
            forward_tick k ->
            Inv s /\ alt_m s <= bound ->
            Inv (fst (tick p (s, rng0) k))
            /\ alt_m (fst (tick p (s, rng0) k)) <= bound).
  { intros bound s k rng0 Hk [[Hgs Hvs] Hbd]; unfold tick; simpl fst; simpl snd.
    pose proof (step_alt_descends p s (tk_dt k) (tk_pitch k) (tk_yaw k) rng0
                  Hb Hs Hk ltac:(lra) Hgs) as Hd.
    pose proof (step_v_air_range p s (tk_dt k) (tk_pitch k) (tk_yaw k) rng0
                  ltac:(lra) Hvs) as Hr.
    unfold Inv; repeat split; lra. }
  assert (Hrun : forall bound ticks w,
            Forall forward_tick ticks ->
            Inv (fst w) /\ alt_m (fst w) <= bound ->
            Inv (fst (run p w ticks)) /\ alt_m (fst (run p w ticks)) <= bound).
  { intros bound ticks w HF Hw.
    apply (run_invariant_ticks p (fun s => Inv s /\ alt_m s <= bound)
             forward_tick); [|exact HF|exact Hw].
    intros; apply Hstep; assumption. }
  assert (Hr1 : Inv (fst (run p (reset_state p, rng) t1))
                /\ alt_m (fst (run p (reset_state p, rng) t1)) <= start_alt_m p).
  { apply Hrun; [exact H1|]. unfold Inv; simpl; lra. }
  rewrite run_app.
  destruct (Hrun (alt_m (fst (run p (reset_state p, rng) t1))) t2
              (run p (reset_state p, rng) t1) H2) as [[Hg2 _] Hle].
  { split; [apply Hr1 | lra]. }
  split; [exact Hg2|]. split; [exact Hle | apply Hr1].
Qed.

(** ** Straight flight *)

Lemma clamp_zero_bank bm : clamp (Rabs 0 * bm) 0 bm = 0.
Proof. rewrite Rabs_R0, Rmult_0_l; clamp_cases. Qed.

(** X8.  With the yaw input centred at every tick of a run from
    [reset_state], the yaw command and authority stay at zero, the
    bank angle stays at zero, both surfaces carry the same deflection
    and the heading stays at the start heading; if moreover the start
    heading is zero and there is neither cross wind nor gust, the
    aircraft stays on the line [y = start_y_m]. *)
Theorem centred_yaw_flies_straight p (ticks : list Tick) (rng : RandomSource)
    (Hy : Forall centred_yaw ticks) :
  let s := fst (run p (reset_state p, rng) ticks) in
  yaw_cmd s = 0 /\ yaw_eff s = 0 /\ bank_deg s = 0
  /\ left_rv s = right_rv s
  /\ heading_rad s = PyMath.radians (start_heading_deg p)
  /\ (start_heading_deg p = 0 -> wind_y_mps p = 0 -> gust_mps p = 0 ->
      y_m s = start_y_m p).
Proof.
  cbv zeta.
  set (Inv := fun s : SimState =>
    yaw_cmd s = 0 /\ yaw_eff s = 0 /\ bank_deg s = 0
    /\ left_rv s = right_rv s
    /\ heading_rad s = PyMath.radians (start_heading_deg p)
    /\ (start_heading_deg p = 0 -> wind_y_mps p = 0 -> gust_mps p = 0 ->
        y_m s = start_y_m p)).
  apply (run_invariant_ticks p Inv centred_yaw); [|exact Hy|].
  - intros s k rng0 Hk (Hyc & Hye & Hb & Hlr & Hh & Hline).
    unfold tick; simpl fst; simpl snd; rewrite Hk.
    destruct (alive s) eqn:Ha;
      [|rewrite step_sim_dead by exact Ha; unfold Inv; tauto].
    assert (Hye' : yaw_eff (update_controls p s (tk_dt k) (tk_pitch k) 0) = 0).
    { rewrite update_controls_yaw_eff, (clamp_inside 0) by lra.
      apply mix_zero_yaw. }
    assert (Hhead : heading_rad (fst (step_sim p s (tk_dt k) (tk_pitch k) 0 rng0))
                    = PyMath.radians (start_heading_deg p)).
    { rewrite step_sim_heading by exact Ha; rewrite Hye', Hh; lra. }
    unfold Inv; repeat split.
    + destruct (step_sim_cmds p s (tk_dt k) (tk_pitch k) 0 rng0 Ha) as [_ E].
      cbv zeta in E; rewrite E; apply clamp_inside; lra.
    + rewrite step_sim_alive by exact Ha; simpl fst.
      unfold before_impact, impact_check, record_history.
      repeat match goal with
             | |- context [if ?c then _ else _] => destruct c
             end; exact Hye'.
    + rewrite step_sim_bank, update_controls_bank by exact Ha.
      rewrite Hye', Hb, clamp_zero_bank; lra.
    + rewrite step_sim_alive by exact Ha; simpl fst.
      assert (E : left_rv (update_controls p s (tk_dt k) (tk_pitch k) 0)
                  = right_rv (update_controls p s (tk_dt k) (tk_pitch k) 0)).
      { change (mix_left (clamp (pitch_cmd s + tk_pitch k * 0.9 * tk_dt k) (-1) 1)
                  (clamp 0 (-1) 1)
                = mix_right (clamp (pitch_cmd s + tk_pitch k * 0.9 * tk_dt k) (-1) 1)
                    (clamp 0 (-1) 1)).
        rewrite mix_left_eq, mix_right_eq, !(clamp_inside 0) by lra.
        f_equal; lra. }
      unfold before_impact, impact_check, record_history.
      repeat match goal with
             | |- context [if ?c then _ else _] => destruct c
             end; exact E.
    + exact Hhead.
    + intros H0 Hw Hgz.
      destruct (step_sim_xy p s (tk_dt k) (tk_pitch k) 0 rng0 Ha) as [_ Ey].
      cbv zeta in Ey; rewrite Ey, Hhead, H0, Hw, Hgz.
      unfold PyMath.radians.
      replace (0 * PI / 180) with 0 by lra.
      rewrite sin_0, (Hline H0 Hw Hgz); lra.
  - unfold Inv; simpl; repeat split; reflexivity.
Qed.

(** ** History: freshness, growth, contents, rate *)

Lemma fmod_range x m : 0 < m -> 0 <= PyMath.fmod x m < m.
Proof.
  intros Hm; unfold PyMath.fmod.
  destruct (base_Int_part (x / m)) as [H1 H2].
  assert (E : x = x / m * m) by (field; lra).
  set (k := IZR (Int_part (x / m))) in *.
  set (q := x / m) in *.
  clearbody k q; subst x.
  split; nra.
Qed.

Lemma step_sim_fresh p s dt pitch_in yaw_in rng :
  alive s = true ->
  exists l,
    hist_last (hist (fst (step_sim p s dt pitch_in yaw_in rng))) = Some l
    /\ t_s (fst (step_sim p s dt pitch_in yaw_in rng)) - h_t_s l <= 0.10.
Proof.
  intros Ha.
  rewrite step_sim_t, step_sim_hist by exact Ha; cbv zeta.
  set (s3 := update_energy p (after_kinematics p s dt pitch_in yaw_in rng) dt).
  destruct (sample_due s3) eqn:E.
  - eexists; split; [apply hist_last_app|]; simpl; lra.
  - unfold sample_due in E; change (hist s3) with (hist s) in E.
    destruct (hist_last (hist s)) as [l|]; [|discriminate].
    exists l; split; [reflexivity|].
    apply rgtb_false in E; exact E.
Qed.

(** X11.  After the first call of a run from [reset_state] the history is
    never empty, and its last sample is never more than 0.10 s older
    than the clock of the state. *)
Theorem history_last_sample_fresh p (k : Tick) (ticks : list Tick)
    (rng : RandomSource) :
  let s := fst (run p (reset_state p, rng) (k :: ticks)) in
  exists l, hist_last (hist s) = Some l /\ t_s s - h_t_s l <= 0.10.
Proof.
  cbv zeta; rewrite run_cons.
  apply (run_invariant p
           (fun s => exists l, hist_last (hist s) = Some l
                               /\ t_s s - h_t_s l <= 0.10)).
  - intros s dt pitch_in yaw_in rng0 IH.
    destruct (alive s) eqn:Ha.
    + apply step_sim_fresh; exact Ha.
    + rewrite step_sim_dead by exact Ha; exact IH.
  - unfold tick.
    apply (step_sim_fresh p (reset_state p) (tk_dt k) (tk_pitch k) (tk_yaw k) rng).
    reflexivity.
Qed.

Lemma step_sim_hist_grows p s dt pitch_in yaw_in rng :
  exists suffix,
    hist (fst (step_sim p s dt pitch_in yaw_in rng)) = hist s ++ suffix
    /\ (length suffix <= 1)%nat.
Proof.
  destruct (alive s) eqn:Ha.
  - rewrite step_sim_hist by exact Ha; cbv zeta.
    destruct (sample_due _).
    + eexists; split; [reflexivity | simpl; lia].
    + exists []; rewrite app_nil_r; split; [reflexivity | simpl; lia].
  - rewrite step_sim_dead by exact Ha.
    exists []; rewrite app_nil_r; split; [reflexivity | simpl; lia].
Qed.

(** X12.  The history is append-only: a run keeps every sample it found, in
    order, and adds at most one sample per call. *)
Theorem history_append_only p (ticks : list Tick)
    (w : SimState * RandomSource) :
  exists suffix,
    hist (fst (run p w ticks)) = hist (fst w) ++ suffix
    /\ (length suffix <= length ticks)%nat.
Proof.
  revert w; induction ticks as [|k ticks IH]; intros [s rng].
  - exists []; rewrite app_nil_r; split; [reflexivity | simpl; lia].
  - rewrite run_cons.
    destruct (IH (tick p (s, rng) k)) as [suf2 [E2 L2]].
    destruct (step_sim_hist_grows p s (tk_dt k) (tk_pitch k) (tk_yaw k) rng)
      as [suf1 [E1 L1]].
    exists (suf1 ++ suf2); split.
    + rewrite E2; unfold tick; simpl fst; simpl snd.
      rewrite E1, app_assoc; reflexivity.
    + rewrite length_app; simpl; lia.
Qed.

Lemma make_sample_wellformed p s st gr :
  controls_in_range s -> sample_wellformed p (make_sample p s st gr).
Proof.
  intros (H1 & H2 & H3 & H4 & H5 & H6).
  unfold sample_wellformed; simpl.
  split; [reflexivity|].
  split; [pose proof (fmod_range (PyMath.degrees (heading_rad s)) 360); lra|].
  split; [destruct st; [right | left]; reflexivity|].
  tauto.
Qed.

Lemma step_sim_samples p s dt pitch_in yaw_in rng :
  controls_in_range s ->
  Forall (sample_wellformed p) (hist s) ->
  Forall (sample_wellformed p)
    (hist (fst (step_sim p s dt pitch_in yaw_in rng))).
Proof.
  intros Hc Hh; destruct (alive s) eqn:Ha.
  - rewrite step_sim_hist by exact Ha; cbv zeta.
    destruct (sample_due _); [|exact Hh].
    apply Forall_app; split; [exact Hh|].
    constructor; [|constructor].
    apply make_sample_wellformed.
    pose proof (update_controls_in_range p s dt pitch_in yaw_in) as H.
    unfold controls_in_range in *; simpl in *; apply H; tauto.
  - rewrite step_sim_dead by exact Ha; exact Hh.
Qed.

(** X13.  Every sample in the history of a run from [reset_state] records
    the distance from its own position to the target, a heading
    between 0 and 360 (the bound 360 is not excluded: the float [%]
    can round a tiny negative angle up to 360.0 itself), a stall flag
    that is 0 or 1, and commands, surfaces and authorities in
    [-1, 1]. *)
Theorem history_samples_wellformed p (ticks : list Tick) (rng : RandomSource) :
  Forall (sample_wellformed p) (hist (fst (run p (reset_state p, rng) ticks))).
Proof.
  apply (run_invariant p
           (fun s => controls_in_range s
                     /\ Forall (sample_wellformed p) (hist s))).
  - intros s dt pitch_in yaw_in rng0 [Hc Hh]; split.
    + apply step_sim_controls; exact Hc.
    + apply step_sim_samples; assumption.
  - split; [unfold controls_in_range; simpl; lra | constructor].
Qed.

Lemma spaced_tail a h : spaced (a :: h) -> spaced h.
Proof. intros H i x y Hx Hy; exact (H (S i) x y Hx Hy). Qed.

Lemma spaced_span h :
  spaced h ->
  forall f l, nth_error h 0 = Some f -> hist_last h = Some l ->
    INR (pred (length h)) * 0.10 <= h_t_s l - h_t_s f.
Proof.
  induction h as [|a h IH]; intros Hs f l Hf Hl; [discriminate|].
  simpl in Hf; injection Hf as <-.
  destruct h as [|b h].
  - simpl in Hl; injection Hl as <-; simpl; lra.
  - assert (Hab : h_t_s b - h_t_s a > 0.10)
      by (apply (Hs 0%nat a b); reflexivity).
    change (hist_last (a :: b :: h)) with (hist_last (b :: h)) in Hl.
    pose proof (IH (spaced_tail _ _ Hs) b l eq_refl Hl) as H.
    change (pred (length (a :: b :: h))) with (S (pred (length (b :: h)))).
    rewrite S_INR; lra.
Qed.

(** X14.  The history holds at most about ten samples per simulated second:
    in a run from [reset_state], [n] samples span at least
    [(n - 1) * 0.10] seconds between the first and the last. *)
Theorem history_rate_bounded p (ticks : list Tick) (rng : RandomSource) :
  let h := hist (fst (run p (reset_state p, rng) ticks)) in
  forall f l, nth_error h 0 = Some f -> hist_last h = Some l ->
    INR (pred (length h)) * 0.10 <= h_t_s l - h_t_s f.
Proof.
  cbv zeta; apply spaced_span.
  apply (run_invariant p (fun s => spaced (hist s))).
  - intros; apply step_sim_spaced; assumption.
  - apply spaced_nil.
Qed.

(** ** Concrete runs under [default_params] *)

Lemma default_sink_le dt pitch_in yaw_in :
  0 <= sink_rate default_params
         (update_controls default_params (reset_state default_params)
            dt pitch_in yaw_in) <= 45.63.
Proof.
  set (s1 := update_controls default_params (reset_state default_params)
               dt pitch_in yaw_in).
  assert (Hv : v_air_mps s1 = 26) by reflexivity.
  pose proof (sink_rate_nonneg default_params s1) as Hlo.
  pose proof (sink_rate_le default_params s1) as Hhi.
  rewrite Hv in Hlo, Hhi; simpl in Hlo, Hhi.
  rewrite Rmax_right in Hhi by lra.
  split; [apply Hlo; lra|].
  apply Rle_trans with (26 * (1 + 0.30) * 1.35); [apply Hhi; lra | lra].
Qed.

Lemma default_first_step_alive dt pitch_in yaw_in rng :
  0 <= dt <= 1 ->
  alive (fst (step_sim default_params (reset_state default_params)
                dt pitch_in yaw_in rng)) = true.
Proof.
  intros Hdt.
  destruct (step_sim_alt default_params (reset_state default_params)
              dt pitch_in yaw_in rng eq_refl) as [Hup _].
  cbv zeta in Hup; apply Hup.
  pose proof (default_sink_le dt pitch_in yaw_in) as Hs.
  simpl alt_m; simpl ground_alt_m.
  assert (sink_rate default_params
            (update_controls default_params (reset_state default_params)
               dt pitch_in yaw_in) * dt <= 45.63 * 1)
    by (apply Rmult_le_compat; lra).
  lra.
Qed.

Lemma first_tick_hist p k rng :
  exists smp,
    hist (fst (run p (reset_state p, rng) [k])) = [smp]
    /\ h_t_s smp = tk_dt k.
Proof.
  change (fst (run p (reset_state p, rng) [k]))
    with (fst (step_sim p (reset_state p) (tk_dt k) (tk_pitch k) (tk_yaw k) rng)).
  rewrite step_sim_hist by reflexivity; cbv zeta.
  assert (E : sample_due
                (update_energy p
                   (after_kinematics p (reset_state p) (tk_dt k) (tk_pitch k)
                      (tk_yaw k) rng) (tk_dt k)) = true) by reflexivity.
  rewrite E; eexists; split; [reflexivity|]; simpl; lra.
Qed.

Lemma step_ends_above_ground_witness :
  let p := default_params in
  let s := reset_state default_params in
  let s' := fst (step_sim p s 1 0 0 (const_source 0.5)) in
  let alt := alt_m s - sink_rate p (update_controls p s 1 0 0) * 1 in
  ground_alt_m p <= alt_m s'
  /\ (alive s' = true <-> ground_alt_m p < alt)
  /\ (alive s' = true -> alt_m s' = alt).
Proof.
  exact (step_ends_above_ground default_params (reset_state default_params)
           1 0 0 (const_source 0.5) eq_refl).
Defined.

Lemma flying_clock_witness :
  let w := (reset_state default_params, const_source 0.5) in
  let ticks := [mkTick 1 1 0] in
  t_s (fst (run default_params w ticks)) = t_s (fst w) + ticks_time ticks
  /\ rs_pos (snd (run default_params w ticks))
     = (rs_pos (snd w) + 2 * length ticks)%nat.
Proof.
  apply (flying_clock default_params [mkTick 1 1 0]
           (reset_state default_params, const_source 0.5)).
  apply (default_first_step_alive 1 1 0); lra.
Defined.

Lemma forward_ticks_example :
  Forall forward_tick [mkTick 1 1 0; mkTick 0.5 0 (-1)].
Proof. repeat constructor; unfold forward_tick; simpl; lra. Defined.

Lemma glide_never_climbs_witness :
  let p := default_params in
  let t1 := [mkTick 1 1 0; mkTick 0.5 0 (-1)] in
  let t2 := [mkTick 1 1 0; mkTick 0.5 0 (-1)] in
  let rng := const_source 0.5 in
  ground_alt_m p <= alt_m (fst (run p (reset_state p, rng) (t1 ++ t2)))
  /\ alt_m (fst (run p (reset_state p, rng) (t1 ++ t2)))
     <= alt_m (fst (run p (reset_state p, rng) t1))
  /\ alt_m (fst (run p (reset_state p, rng) t1)) <= start_alt_m p.
Proof.
  apply (glide_never_climbs default_params);
    try exact forward_ticks_example; simpl; lra.
Defined.

Lemma centred_yaw_flies_straight_witness :
  let p := calm_params in
  let s := fst (run p (reset_state p, const_source 0.5)
                  [mkTick 1 1 0; mkTick 1 (-1) 0]) in
  yaw_cmd s = 0 /\ yaw_eff s = 0 /\ bank_deg s = 0
  /\ left_rv s = right_rv s
  /\ heading_rad s = PyMath.radians (start_heading_deg p)
  /\ (start_heading_deg p = 0 -> wind_y_mps p = 0 -> gust_mps p = 0 ->
      y_m s = start_y_m p).
Proof.
  apply (centred_yaw_flies_straight calm_params).
  repeat constructor.
Defined.

(** * The 3D game: [game_3d_opengl.py] *)

(** ** Keyboard *)

(** X29.  The inputs [main] derives from the keys are -1, 0 or 1 on each
    axis: a key counts +1, the opposite key -1, both together cancel;
    the clamps that follow never cut anything. *)
Theorem key_inputs_values (k : Game.Keys) :
  let one (b : bool) := if b then 1 else 0 in
  Game.key_inputs k
  = (one (Game.K_w k) - one (Game.K_s k), one (Game.K_a k) - one (Game.K_d k))
  /\ -1 <= fst (Game.key_inputs k) <= 1
  /\ -1 <= snd (Game.key_inputs k) <= 1.
Proof.
  cbv zeta; unfold Game.key_inputs.
  destruct (Game.K_w k), (Game.K_s k), (Game.K_a k), (Game.K_d k);
    cbv zeta; cbn [fst snd];
    (split; [f_equal; clamp_cases | split; apply clamp_range; lra]).
Qed.

(** ** Main loop: the impact message *)

Lemma frame_some p w f w' printed :
  Game.frame p w f = Some (w', printed) ->
  let s0 := if Game.K_r (Game.keys f) then reset_state p else fst w in
  let st := step_sim p s0 (INR (Game.tick_ms f) / 1000)
              (fst (Game.key_inputs (Game.keys f)))
              (snd (Game.key_inputs (Game.keys f))) (snd w) in
  (alive (fst st) = false /\ exists r, impact (fst st) = Some r
     /\ printed = Some r /\ w' = (Game.clear_impact (fst st), snd st))
  \/ ((alive (fst st) = true \/ impact (fst st) = None)
      /\ printed = None /\ w' = st).
Proof.
  unfold Game.frame.
  destruct (Game.quit_event f); [discriminate|].
  destruct (Game.K_ESCAPE (Game.keys f)); [discriminate|].
  destruct (Game.key_inputs (Game.keys f)) as [pitch_in yaw_in]; cbn [fst snd].
  cbv zeta.
  destruct (step_sim p _ _ pitch_in yaw_in (snd w)) as [s rng]; cbn [fst snd].
  destruct (alive s) eqn:Ha; simpl negb; cbv iota.
  - intros E; injection E as <- <-; right; tauto.
  - destruct (impact s) as [r|] eqn:Hi.
    + intros E; injection E as <- <-; left.
      split; [reflexivity|]; exists r; tauto.
    + intros E; injection E as <- <-; right; tauto.
Qed.

Lemma step_sim_pending p s dt pitch_in yaw_in rng :
  (pending_print (fst (step_sim p s dt pitch_in yaw_in rng))
   <= pending_print s)%nat.
Proof.
  destruct (alive s) eqn:Ha.
  - unfold pending_print; rewrite Ha.
    destruct (alive (fst _)); [lia|].
    destruct (impact (fst _)); lia.
  - rewrite step_sim_dead by exact Ha; simpl; lia.
Qed.

Lemma frame_pending p w f w' printed :
  Game.frame p w f = Some (w', printed) ->
  (length (match printed with Some r => [r] | None => [] end)
   + pending_print (fst w')
   <= pending_print (fst w) + (if Game.K_r (Game.keys f) then 1 else 0))%nat.
Proof.
  intros E; apply frame_some in E; cbv zeta in E.
  set (s0 := if Game.K_r (Game.keys f) then reset_state p else fst w) in *.
  assert (H0 : (pending_print s0
                <= pending_print (fst w)
                   + (if Game.K_r (Game.keys f) then 1 else 0))%nat).
  { unfold s0; destruct (Game.K_r (Game.keys f)); [|lia].
    change (pending_print (reset_state p)) with 1%nat; lia. }
  match type of E with
  | context [step_sim p s0 ?dt ?a ?b ?r] =>
      pose proof (step_sim_pending p s0 dt a b r) as Hs;
      set (st := step_sim p s0 dt a b r) in *
  end.
  destruct E as [[Hd [r [Hi [-> ->]]]] | [Hor [-> ->]]].
  - assert (pending_print (fst st) = 1%nat)
      by (unfold pending_print; rewrite Hd, Hi; reflexivity).
    unfold pending_print at 1; simpl; rewrite Hd; lia.
  - simpl; lia.
Qed.

(** X26.  [main] prints the impact message at most once per flight: over any
    frames, from any state, the number of messages is at most one plus
    the number of frames in which [R] was held. *)
Theorem impact_message_once_per_flight p (w : SimState * RandomSource)
    (frames : list Game.FrameInput) :
  (length (snd (fst (Game.play p w frames))) <= 1 + Game.resets frames)%nat.
Proof.
  assert (H : forall frames w,
            (length (snd (fst (Game.play p w frames)))
             <= pending_print (fst w) + Game.resets frames)%nat).
  { clear; intros frames; induction frames as [|f rest IH]; intros w.
    - simpl; lia.
    - simpl Game.play.
      destruct (Game.frame p w f) as [[w' printed]|] eqn:E; [|simpl; lia].
      pose proof (frame_pending p w f w' printed E) as Hf.
      specialize (IH w').
      destruct (Game.play p w' rest) as [[wf out] ended].
      cbn [fst snd] in *.
      unfold Game.resets in *; simpl filter.
      destruct (Game.K_r (Game.keys f)); destruct printed; simpl in *; lia. }
  specialize (H frames w).
  assert (pending_print (fst w) <= 1)%nat.
  { unfold pending_print; destruct (alive _); [lia|].
    destruct (impact _); lia. }
  lia.
Qed.

Lemma step_sim_record_genuine p s dt pitch_in yaw_in rng :
  record_genuine p s ->
  record_genuine p (fst (step_sim p s dt pitch_in yaw_in rng)).
Proof.
  intros Hc; destruct (alive s) eqn:Ha.
  - rewrite step_sim_alive by exact Ha; simpl fst.
    unfold record_genuine in Hc; rewrite Ha in Hc.
    destruct (Rle_dec (alt_m (before_impact p s dt pitch_in yaw_in rng))
                (ground_alt_m p)) as [Hle|Hgt].
    + rewrite impact_check_hit by exact Hle.
      unfold record_genuine; simpl; right; reflexivity.
    + rewrite impact_check_miss by lra.
      unfold record_genuine, before_impact.
      rewrite record_history_alive, record_history_impact; simpl.
      rewrite Ha; exact Hc.
  - rewrite step_sim_dead by exact Ha; exact Hc.
Qed.

(** X27.  Every impact record [main] prints is the one [step_sim] made at
    touchdown: its miss distance is the distance from its own position
    to the target of the default parameters and its "on target" flag
    says whether that distance is within the target radius. *)
Theorem printed_records_genuine (rng : RandomSource)
    (frames : list Game.FrameInput) :
  Forall (fun r =>
            i_miss_m r
            = PyMath.hypot (i_x_m r - target_x_m default_params)
                (i_y_m r - target_y_m default_params)
            /\ (i_on_target r = true
                <-> i_miss_m r <= target_radius_m default_params))
    (snd (fst (Game.main rng frames))).
Proof.
  unfold Game.main.
  set (p := default_params).
  assert (H : forall frames w,
            record_genuine p (fst w) ->
            Forall (fun r =>
                      i_miss_m r
                      = PyMath.hypot (i_x_m r - target_x_m p)
                          (i_y_m r - target_y_m p)
                      /\ (i_on_target r = true
                          <-> i_miss_m r <= target_radius_m p))
              (snd (fst (Game.play p w frames)))).
  { clear; intros frames; induction frames as [|f rest IH]; intros w Hw.
    - constructor.
    - simpl Game.play.
      destruct (Game.frame p w f) as [[w' printed]|] eqn:E; [|constructor].
      apply frame_some in E; cbv zeta in E.
      set (s0 := if Game.K_r (Game.keys f) then reset_state p else fst w) in *.
      assert (H0 : record_genuine p s0).
      { unfold s0; destruct (Game.K_r (Game.keys f)); [reflexivity | exact Hw]. }
      match type of E with
      | context [step_sim p s0 ?dt ?a ?b ?r] =>
          pose proof (step_sim_record_genuine p s0 dt a b r H0) as Hs;
          set (st := step_sim p s0 dt a b r) in *
      end.
      destruct E as [[Hd [r [Hi [-> ->]]]] | [Hor [-> ->]]].
      + assert (Hw' : record_genuine p (fst (Game.clear_impact (fst st), snd st))).
        { unfold record_genuine; simpl; rewrite Hd; left; reflexivity. }
        specialize (IH _ Hw').
        destruct (Game.play p _ rest) as [[wf out] ended]; cbn [fst snd] in *.
        constructor; [|exact IH].
        unfold record_genuine in Hs; rewrite Hd, Hi in Hs.
        destruct Hs as [Hs|Hs]; [discriminate|].
        injection Hs as ->; simpl; split; [reflexivity | apply rleb_true].
      + specialize (IH _ Hs).
        destruct (Game.play p st rest) as [[wf out] ended]; cbn [fst snd] in *.
        exact IH. }
  apply H; reflexivity.
Qed.

(** * The dashboard: [dashboard_streamlit.py] *)

(** ** Scripted pilot *)

Lemma np_clip_range x lo hi : lo <= hi -> lo <= Dashboard.np_clip x lo hi <= hi.
Proof.
  intros H; unfold Dashboard.np_clip, Rmin, Rmax.
  repeat destruct (Rle_dec _ _); lra.
Qed.

Lemma np_clip_inside x lo hi : lo <= x <= hi -> Dashboard.np_clip x lo hi = x.
Proof.
  intros H; unfold Dashboard.np_clip, Rmin, Rmax.
  repeat destruct (Rle_dec _ _); lra.
Qed.

Lemma pilot_range sl s :
  -1 <= fst (Dashboard.pilot sl s) <= 1 /\ -1 <= snd (Dashboard.pilot sl s) <= 1.
Proof.
  unfold Dashboard.pilot; cbv zeta; cbn [fst snd].
  split; apply np_clip_range; lra.
Qed.

(** X25.  The scripted pilot always hands [step_sim] inputs in [-1, 1].  The
    yaw input is the yaw bias plus an oscillation of amplitude 0.25,
    uncut when the bias is within [-0.75, 0.75]; the pitch input is the
    pitch bias at 250 m and above and 0.35 less below, uncut when that
    value is within [-1, 1]. *)
Theorem scripted_pilot_inputs (sl : Dashboard.Sliders) (s : SimState) :
  let pitch_in := fst (Dashboard.pilot sl s) in
  let yaw_in := snd (Dashboard.pilot sl s) in
  -1 <= pitch_in <= 1 /\ -1 <= yaw_in <= 1
  /\ (-0.75 <= Dashboard.yaw_bias sl <= 0.75 ->
      yaw_in = Dashboard.yaw_bias sl + 0.25 * sin (0.12 * t_s s)
      /\ Rabs (yaw_in - Dashboard.yaw_bias sl) <= 0.25)
  /\ (250 <= alt_m s -> -1 <= Dashboard.pitch_bias sl <= 1 ->
      pitch_in = Dashboard.pitch_bias sl)
  /\ (alt_m s < 250 -> -0.65 <= Dashboard.pitch_bias sl <= 1 ->
      pitch_in = Dashboard.pitch_bias sl - 0.35).
Proof.
  cbv zeta.
  destruct (pilot_range sl s) as [Hp Hy].
  split; [exact Hp|]. split; [exact Hy|].
  unfold Dashboard.pilot; cbv zeta; cbn [fst snd].
  pose proof (SIN_bound (0.12 * t_s s)) as [Hs1 Hs2].
  split; [|split].
  - intros Hb.
    assert (E : Dashboard.np_clip
                  (0 + (Dashboard.yaw_bias sl + 0.25 * sin (0.12 * t_s s))) (-1) 1
                = Dashboard.yaw_bias sl + 0.25 * sin (0.12 * t_s s))
      by (rewrite np_clip_inside; lra).
    rewrite E; split; [reflexivity|].
    apply Rabs_le; lra.
  - intros Ha Hb.
    rewrite (proj2 (rltb_false _ _) Ha).
    rewrite np_clip_inside; lra.
  - intros Ha Hb.
    rewrite (proj2 (rltb_true _ _) Ha).
    rewrite np_clip_inside; lra.
Qed.

Lemma scripted_pilot_inputs_witness :
  let sl := Dashboard.default_sliders in
  let s := reset_state (Dashboard.params Dashboard.default_sliders) in
  let pitch_in := fst (Dashboard.pilot sl s) in
  let yaw_in := snd (Dashboard.pilot sl s) in
  -1 <= pitch_in <= 1 /\ -1 <= yaw_in <= 1
  /\ (-0.75 <= Dashboard.yaw_bias sl <= 0.75 ->
      yaw_in = Dashboard.yaw_bias sl + 0.25 * sin (0.12 * t_s s)
      /\ Rabs (yaw_in - Dashboard.yaw_bias sl) <= 0.25)
  /\ (250 <= alt_m s -> -1 <= Dashboard.pitch_bias sl <= 1 ->
      pitch_in = Dashboard.pitch_bias sl)
  /\ (alt_m s < 250 -> -0.65 <= Dashboard.pitch_bias sl <= 1 ->
      pitch_in = Dashboard.pitch_bias sl - 0.35).
Proof.
  exact (scripted_pilot_inputs Dashboard.default_sliders
           (reset_state (Dashboard.params Dashboard.default_sliders))).
Defined.

(** ** The loop of [run_sim] *)

Lemma fly_unfold n sl p w :
  Dashboard.fly (S n) sl p w
  = if alive (fst w) && rltb (t_s (fst w)) 600
    then Dashboard.fly n sl p
           (step_sim p (fst w) Dashboard.dt (fst (Dashboard.pilot sl (fst w)))
              (snd (Dashboard.pilot sl (fst w))) (snd w))
    else Some w.
Proof.
  simpl; destruct (alive (fst w) && rltb (t_s (fst w)) 600); [|reflexivity].
  destruct (Dashboard.pilot sl (fst w)); reflexivity.
Qed.

Lemma fly_continue s :
  alive s && rltb (t_s s) 600 = true <-> alive s = true /\ t_s s < 600.
Proof. rewrite andb_true_iff, rltb_true; tauto. Qed.

Lemma fly_stop s :
  alive s && rltb (t_s s) 600 = false <-> alive s = false \/ 600 <= t_s s.
Proof. rewrite andb_false_iff, rltb_false; tauto. Qed.

Lemma dt_pos : 0 < Dashboard.dt.
Proof. unfold Dashboard.dt; lra. Qed.

(** What every iteration preserves holds when the loop ends. *)
Lemma fly_invariant sl p (P : SimState -> Prop) :
  (forall s rng, alive s = true -> t_s s < 600 -> P s ->
     P (fst (step_sim p s Dashboard.dt (fst (Dashboard.pilot sl s))
               (snd (Dashboard.pilot sl s)) rng))) ->
  forall fuel w w', P (fst w) -> Dashboard.fly fuel sl p w = Some w' -> P (fst w').
Proof.
  intros Hstep fuel; induction fuel as [|n IH]; intros w w' Hw E; [discriminate|].
  rewrite fly_unfold in E.
  destruct (alive (fst w) && rltb (t_s (fst w)) 600) eqn:C.
  - apply fly_continue in C; destruct C as [Ha Ht].
    apply (IH _ _ (Hstep (fst w) (snd w) Ha Ht Hw) E).
  - injection E as <-; exact Hw.
Qed.


Lemma fly_ends sl p n :
  forall w, 600 <= t_s (fst w) + INR n * Dashboard.dt ->
  exists w', Dashboard.fly (S n) sl p w = Some w'
             /\ (alive (fst w') = false \/ 600 <= t_s (fst w')).
Proof.
  induction n as [|n IH]; intros w Hn.
  - rewrite fly_unfold.
    assert (C : alive (fst w) && rltb (t_s (fst w)) 600 = false)
      by (apply fly_stop; right; simpl in Hn; lra).
    rewrite C; exists w; split; [reflexivity | apply fly_stop; exact C].
  - rewrite fly_unfold.
    destruct (alive (fst w) && rltb (t_s (fst w)) 600) eqn:C.
    + apply fly_continue in C; destruct C as [Ha Ht].
      apply IH.
      rewrite step_sim_t by exact Ha.
      rewrite S_INR in Hn; lra.
    + exists w; split; [reflexivity | apply fly_stop; exact C].
Qed.

(** ** The summary of [run_sim] *)

Lemma column_min_le_first rest : forall f, Dashboard.column_min f rest <= f.
Proof.
  unfold Dashboard.column_min; induction rest as [|x rest IH]; intros f.
  - simpl; lra.
  - simpl; pose proof (IH (Rmin f x)); pose proof (Rmin_l f x); lra.
Qed.

Lemma column_min_le_all rest :
  forall f, Forall (fun x => Dashboard.column_min f rest <= x) rest.
Proof.
  induction rest as [|x rest IH]; intros f; constructor.
  - change (Dashboard.column_min f (x :: rest))
      with (Dashboard.column_min (Rmin f x) rest).
    pose proof (column_min_le_first rest (Rmin f x)).
    pose proof (Rmin_r f x); lra.
  - exact (IH (Rmin f x)).
Qed.

Lemma column_min_attained rest :
  forall f, Dashboard.column_min f rest = f
            \/ In (Dashboard.column_min f rest) rest.
Proof.
  induction rest as [|x rest IH]; intros f; [left; reflexivity|].
  change (Dashboard.column_min f (x :: rest))
    with (Dashboard.column_min (Rmin f x) rest).
  destruct (IH (Rmin f x)) as [E|Hin].
  - rewrite E; unfold Rmin; destruct (Rle_dec f x);
      [left; reflexivity | right; left; reflexivity].
  - right; right; exact Hin.
Qed.

Lemma hist_last_in h l : hist_last h = Some l -> In l h.
Proof.
  intros E; rewrite hist_last_nth_error in E.
  apply nth_error_In in E; exact E.
Qed.

Lemma hist_last_some h : h <> [] -> exists l, hist_last h = Some l.
Proof.
  intros H; destruct (hist_last h) as [l|] eqn:E; [exists l; reflexivity|].
  apply hist_last_none in E; contradiction.
Qed.

Lemma step_sim_hist_nonempty p s dt pitch_in yaw_in rng :
  hist s <> [] -> hist (fst (step_sim p s dt pitch_in yaw_in rng)) <> [].
Proof.
  intros H.
  destruct (step_sim_hist_grows p s dt pitch_in yaw_in rng) as [suf [E _]].
  rewrite E; intros C; apply app_eq_nil in C; destruct C; contradiction.
Qed.

Lemma step_sim_fresh_window p s dt pitch_in yaw_in rng :
  alive s = true -> 0 <= dt ->
  (forall l, hist_last (hist s) = Some l -> 0 <= t_s s - h_t_s l) ->
  exists l,
    hist_last (hist (fst (step_sim p s dt pitch_in yaw_in rng))) = Some l
    /\ 0 <= t_s (fst (step_sim p s dt pitch_in yaw_in rng)) - h_t_s l <= 0.10.
Proof.
  intros Ha Hdt Hprev.
  rewrite step_sim_t, step_sim_hist by exact Ha; cbv zeta.
  set (s3 := update_energy p (after_kinematics p s dt pitch_in yaw_in rng) dt).
  destruct (sample_due s3) eqn:E.
  - eexists; split; [apply hist_last_app|]; simpl; lra.
  - unfold sample_due in E; change (hist s3) with (hist s) in E.
    destruct (hist_last (hist s)) as [l|] eqn:El; [|discriminate].
    exists l; split; [reflexivity|].
    apply rgtb_false in E; change (t_s s3) with (t_s s + dt) in E.
    specialize (Hprev l eq_refl); lra.
Qed.

(** What the loop of [run_sim] keeps true from its first iteration on. *)
Lemma fly_from_reset sl p fuel rng w :
  Dashboard.fly fuel sl p (reset_state p, rng) = Some w ->
  Forall (sample_wellformed p) (hist (fst w))
  /\ exists l, hist_last (hist (fst w)) = Some l
               /\ 0 <= t_s (fst w) - h_t_s l <= 0.10.
Proof.
  destruct fuel as [|n]; [discriminate|].
  rewrite fly_unfold.
  assert (C : alive (fst (reset_state p, rng))
              && rltb (t_s (fst (reset_state p, rng))) 600 = true)
    by (apply fly_continue; simpl; split; [reflexivity | lra]).
  rewrite C; cbn [fst snd].
  pose proof dt_pos as Hdt.
  set (P := fun s : SimState =>
              (controls_in_range s /\ Forall (sample_wellformed p) (hist s))
              /\ exists l, hist_last (hist s) = Some l
                           /\ 0 <= t_s s - h_t_s l <= 0.10).
  assert (Hstep : forall s rng0, alive s = true -> t_s s < 600 -> P s ->
            P (fst (step_sim p s Dashboard.dt (fst (Dashboard.pilot sl s))
                      (snd (Dashboard.pilot sl s)) rng0))).
  { intros s rng0 Ha _ [[Hc Hw] [l [Hl Hwin]]]; split; [split|].
    - apply step_sim_controls; exact Hc.
    - apply step_sim_samples; assumption.
    - apply step_sim_fresh_window; [exact Ha | lra |].
      intros l' Hl'; rewrite Hl in Hl'; injection Hl' as <-; lra. }
  intros E.
  assert (H0 : P (fst (step_sim p (reset_state p) Dashboard.dt
                         (fst (Dashboard.pilot sl (reset_state p)))
                         (snd (Dashboard.pilot sl (reset_state p))) rng))).
  { split; [split|].
    - apply step_sim_controls; unfold controls_in_range; simpl; lra.
    - apply step_sim_samples; [unfold controls_in_range; simpl; lra | constructor].
    - apply step_sim_fresh_window; [reflexivity | lra |].
      intros l' Hl'; discriminate. }
  destruct (fly_invariant sl p P Hstep n _ w H0 E) as [[_ Hw] Hl].
  split; assumption.
Qed.

(** X23.  [run_sim] never returns an empty frame, so the "No history
    produced" branch of the page is never taken.  The summary it
    returns holds the time and miss distance of the last row; its
    minimum miss distance is non-negative, at most the miss distance
    of every row (the last one included) and equal to that of some
    row. *)
Theorem run_sim_summary (fuel : nat) (sl : Dashboard.Sliders)
    (rng : RandomSource) (p : SimParams) (h : list HistSample)
    (sm : option Dashboard.Summary)
    (E : Dashboard.run_sim fuel sl rng = Some (p, h, sm)) :
  exists r last,
    sm = Some r /\ hist_last h = Some last
    /\ Dashboard.sum_t_s r = h_t_s last
    /\ Dashboard.sum_miss_m r = h_miss_m last
    /\ 0 <= Dashboard.sum_min_miss_m r <= Dashboard.sum_miss_m r
    /\ Forall (fun row => Dashboard.sum_min_miss_m r <= h_miss_m row) h
    /\ exists row, In row h /\ h_miss_m row = Dashboard.sum_min_miss_m r.
Proof.
  unfold Dashboard.run_sim in E; cbv zeta in E.
  destruct (Dashboard.fly fuel sl (Dashboard.params sl)
              (reset_state (Dashboard.params sl), rng)) as [[s rng']|] eqn:F;
    [|discriminate].
  injection E as <- <- <-.
  destruct (fly_from_reset sl _ fuel rng _ F) as [Hw [last [Hl _]]].
  cbn [fst] in *.
  destruct (hist s) as [|first rest] eqn:Hh; [discriminate|].
  unfold Dashboard.summarise; rewrite Hl.
  eexists; exists last.
  split; [reflexivity|]. split; [reflexivity|]. cbn.
  split; [reflexivity|]. split; [reflexivity|].
  set (m := Dashboard.column_min (h_miss_m first) (map h_miss_m rest)).
  assert (Hall : Forall (fun row => m <= h_miss_m row) (first :: rest)).
  { constructor; [apply column_min_le_first|].
    pose proof (column_min_le_all (map h_miss_m rest) (h_miss_m first)) as H.
    fold m in H; rewrite Forall_map in H; exact H. }
  assert (Hatt : exists row, In row (first :: rest) /\ h_miss_m row = m).
  { destruct (column_min_attained (map h_miss_m rest) (h_miss_m first))
      as [Ef|Hin]; fold m in Ef || fold m in Hin.
    - exists first; split; [left; reflexivity | symmetry; exact Ef].
    - apply in_map_iff in Hin; destruct Hin as [row [Er Hr]].
      exists row; split; [right; exact Hr | exact Er]. }
  split; [split|split; assumption].
  - destruct Hatt as [row [Hin Er]]; rewrite <- Er.
    rewrite Forall_forall in Hw; destruct (Hw row Hin) as [Hm _].
    rewrite Hm; unfold PyMath.hypot; apply sqrt_pos.
  - rewrite Forall_forall in Hall; apply Hall.
    apply hist_last_in; exact Hl.
Qed.

(** X24.  The flight time the dashboard shows is the time of the last
    history sample: never later than the clock of the simulation when
    the loop ended, and at most 0.10 s earlier. *)
Theorem dashboard_flight_time (fuel : nat) (sl : Dashboard.Sliders)
    (rng : RandomSource) (w : SimState * RandomSource)
    (E : Dashboard.fly fuel sl (Dashboard.params sl)
           (reset_state (Dashboard.params sl), rng) = Some w) :
  exists r,
    Dashboard.summarise (hist (fst w)) = Some r
    /\ 0 <= t_s (fst w) - Dashboard.sum_t_s r <= 0.10.
Proof.
  destruct (fly_from_reset sl _ fuel rng _ E) as [_ [last [Hl Hwin]]].
  destruct (hist (fst w)) as [|first rest]; [discriminate|].
  unfold Dashboard.summarise; rewrite Hl.
  eexists; split; [reflexivity | exact Hwin].
Qed.

(** ** A landed aircraft in the game *)

(** From a state that is down with its record still in place, two
    frames without keys print the record once: in the first. *)
Lemma landed_prints_once :
  let idle := Game.mkFrame 16 false
                (Game.mkKeys false false false false false false) in
  snd (fst (Game.play default_params (landed_example, const_source 0.5)
              [idle; idle]))
  = [{| i_t_s := 300; i_x_m := 2400; i_y_m := 700;
        i_miss_m := 0; i_on_target := true |}].
Proof. reflexivity. Qed.

(** * The dashboard run: termination and a full run *)

(** 36000 time steps stay below 600 s: [dt] is below one sixtieth. *)
Lemma clock_after_36000_steps : 36000 * Dashboard.dt < 600.
Proof. unfold Dashboard.dt; lra. Qed.

Lemma fly_exit sl p fuel w w' :
  Dashboard.fly fuel sl p w = Some w' ->
  alive (fst w') = false \/ 600 <= t_s (fst w').
Proof.
  revert w; induction fuel as [|n IH]; intros w E; [discriminate|].
  rewrite fly_unfold in E.
  destruct (alive (fst w) && rltb (t_s (fst w)) 600) eqn:C.
  - exact (IH _ E).
  - injection E as <-; apply fly_stop; exact C.
Qed.


Lemma fuel_example : 36001 <= INR (Z.to_nat 36001).
Proof. rewrite INR_IZR_INZ, Z2Nat.id by lia; lra. Defined.


(** ** The run at the default sliders *)

Lemma default_run_fly :
  Dashboard.fly default_fuel Dashboard.default_sliders
    (Dashboard.params Dashboard.default_sliders)
    (reset_state (Dashboard.params Dashboard.default_sliders),
     const_source 0.5)
  = Some default_run.
Proof.
  unfold default_run; cbv zeta.
  destruct (fly_ends Dashboard.default_sliders
              (Dashboard.params Dashboard.default_sliders) (Z.to_nat 36001)
              (reset_state (Dashboard.params Dashboard.default_sliders),
               const_source 0.5)) as [w [E _]].
  { pose proof fuel_example as Hf.
    unfold Dashboard.dt; simpl fst; simpl t_s.
    assert (36001 * (4803839602528529 / 288230376151711744)
            <= INR (Z.to_nat 36001) * (4803839602528529 / 288230376151711744))
      by (apply Rmult_le_compat_r; lra).
    lra. }
  fold default_fuel in E; rewrite E; reflexivity.
Qed.

Lemma default_run_sim :
  Dashboard.run_sim default_fuel Dashboard.default_sliders (const_source 0.5)
  = Some (Dashboard.params Dashboard.default_sliders,
          hist (fst default_run),
          Dashboard.summarise (hist (fst default_run))).
Proof.
  unfold Dashboard.run_sim; cbv zeta; rewrite default_run_fly.
  destruct default_run; reflexivity.
Qed.

(** What a step of the default run keeps true of speed, height and
    clock: the aircraft loses at most 106 m per second, so it cannot
    be down before 8 s. *)
Lemma default_step_flight s pitch_in yaw_in rng :
  let p := Dashboard.params Dashboard.default_sliders in
  let s' := fst (step_sim p s Dashboard.dt pitch_in yaw_in rng) in
  alive s = true ->
  16 <= v_air_mps s <= 60 ->
  900 - 106 * t_s s <= alt_m s ->
  16 <= v_air_mps s' <= 60
  /\ (alive s' = true -> 900 - 106 * t_s s' <= alt_m s')
  /\ (alive s' = false -> 8 <= t_s s').
Proof.
  cbv zeta; intros Ha Hv Halt.
  set (p := Dashboard.params Dashboard.default_sliders).
  pose proof dt_pos as Hdt.
  assert (Hdt1 : Dashboard.dt <= 1) by (unfold Dashboard.dt; lra).
  split.
  - apply (step_v_air_range p s Dashboard.dt pitch_in yaw_in rng);
      simpl; lra.
  - destruct (step_sim_alt p s Dashboard.dt pitch_in yaw_in rng Ha)
      as [Hup Hdown]; cbv zeta in Hup, Hdown.
    set (s1 := update_controls p s Dashboard.dt pitch_in yaw_in) in *.
    assert (Hv1 : v_air_mps s1 = v_air_mps s) by reflexivity.
    pose proof (sink_rate_nonneg p s1) as Hlo.
    pose proof (sink_rate_le p s1) as Hhi.
    rewrite Hv1 in Hlo, Hhi; simpl in Hlo, Hhi.
    rewrite Rmax_right in Hhi by lra.
    assert (H0 : 0 <= sink_rate p s1) by (apply Hlo; lra).
    assert (H1 : sink_rate p s1 <= v_air_mps s * (1 + 0.30) * 1.35)
      by (apply Hhi; lra).
    assert (H2 : sink_rate p s1 <= 106) by lra.
    assert (H3 : sink_rate p s1 * Dashboard.dt <= 106 * Dashboard.dt)
      by (apply Rmult_le_compat_r; lra).
    rewrite (step_sim_t p s Dashboard.dt pitch_in yaw_in rng Ha).
    change (ground_alt_m p) with 0 in *.
    destruct (Rle_dec (alt_m s - sink_rate p s1 * Dashboard.dt) 0) as [Hle|Hgt].
    + destruct (Hdown Hle) as [_ Hd]; rewrite Hd.
      split; [discriminate | intros _; lra].
    + destruct (Hup ltac:(lra)) as [Ea Hl]; rewrite Ea, Hl.
      split; [intros _; lra | discriminate].
Qed.

Lemma step_sim_first_sample p s dt pitch_in yaw_in rng f :
  nth_error (hist s) 0 = Some f ->
  nth_error (hist (fst (step_sim p s dt pitch_in yaw_in rng))) 0 = Some f.
Proof.
  intros H.
  destruct (step_sim_hist_grows p s dt pitch_in yaw_in rng) as [suf [E _]].
  rewrite E; destruct (hist s); [discriminate | exact H].
Qed.

(** The default run lasts at least 8 s, and its history has at least
    two samples, the first taken after the first time step. *)
Lemma default_run_rows :
  8 <= t_s (fst default_run)
  /\ (2 <= length (hist (fst default_run)))%nat
  /\ exists f, nth_error (hist (fst default_run)) 0 = Some f
               /\ h_t_s f = Dashboard.dt.
Proof.
  set (sl := Dashboard.default_sliders).
  set (p := Dashboard.params sl).
  pose proof dt_pos as Hdt.
  assert (Hdt1 : Dashboard.dt <= 1) by (unfold Dashboard.dt; lra).
  set (Q := fun s : SimState =>
    (16 <= v_air_mps s <= 60
     /\ (alive s = true -> 900 - 106 * t_s s <= alt_m s)
     /\ (alive s = false -> 8 <= t_s s))
    /\ (exists f, nth_error (hist s) 0 = Some f /\ h_t_s f = Dashboard.dt)
    /\ (exists l, hist_last (hist s) = Some l
                  /\ 0 <= t_s s - h_t_s l <= 0.10)).
  assert (Hstep : forall s rng0, alive s = true -> t_s s < 600 -> Q s ->
            Q (fst (step_sim p s Dashboard.dt (fst (Dashboard.pilot sl s))
                      (snd (Dashboard.pilot sl s)) rng0))).
  { intros s rng0 Ha _ [[Hv [Halt _]] [[f [Hf Htf]] [l [Hl Hwin]]]].
    split; [|split].
    - apply (default_step_flight s); [exact Ha | exact Hv | apply Halt; exact Ha].
    - exists f; split; [apply step_sim_first_sample; exact Hf | exact Htf].
    - apply step_sim_fresh_window; [exact Ha | lra |].
      intros l' Hl'; rewrite Hl in Hl'; injection Hl' as <-; lra. }
  pose proof default_run_fly as E.
  fold sl in E; fold p in E.
  unfold default_fuel in E; rewrite fly_unfold in E.
  assert (C : alive (fst (reset_state p, const_source 0.5))
              && rltb (t_s (fst (reset_state p, const_source 0.5))) 600 = true)
    by (apply fly_continue; simpl; split; [reflexivity | lra]).
  rewrite C in E; cbn [fst snd] in E.
  set (pi0 := fst (Dashboard.pilot sl (reset_state p))) in *.
  set (yi0 := snd (Dashboard.pilot sl (reset_state p))) in *.
  assert (H0 : Q (fst (step_sim p (reset_state p) Dashboard.dt pi0 yi0
                         (const_source 0.5)))).
  { split; [|split].
    - apply (default_step_flight (reset_state p)); [reflexivity | |];
        simpl; lra.
    - rewrite step_sim_hist by reflexivity; cbv zeta.
      assert (Ed : sample_due
                     (update_energy p
                        (after_kinematics p (reset_state p) Dashboard.dt
                           pi0 yi0 (const_source 0.5)) Dashboard.dt) = true)
        by reflexivity.
      rewrite Ed; eexists; split; [reflexivity|]; simpl; lra.
    - apply step_sim_fresh_window; [reflexivity | lra |].
      intros l' Hl'; discriminate. }
  pose proof (fly_invariant sl p Q Hstep _ _ _ H0 E) as HQ.
  pose proof (fly_exit sl p _ _ _ E) as Hend.
  destruct HQ as [[_ [_ Hdead]] [[f [Hf Htf]] [l [Hl Hwin]]]].
  assert (Ht : 8 <= t_s (fst default_run)).
  { destruct Hend as [Hd|Ht]; [apply Hdead; exact Hd | lra]. }
  split; [exact Ht|]. split; [|exists f; split; assumption].
  destruct (hist (fst default_run)) as [|a [|b rest]] eqn:Eh.
  - discriminate.
  - simpl in Hf, Hl; injection Hf as ->; injection Hl as <-.
    exfalso; lra.
  - simpl; lia.
Qed.

Lemma run_sim_summary_witness :
  let h := hist (fst default_run) in
  (2 <= length h)%nat
  /\ exists r last,
       Dashboard.summarise h = Some r /\ hist_last h = Some last
       /\ Dashboard.sum_t_s r = h_t_s last
       /\ Dashboard.sum_miss_m r = h_miss_m last
       /\ 0 <= Dashboard.sum_min_miss_m r <= Dashboard.sum_miss_m r
       /\ Forall (fun row => Dashboard.sum_min_miss_m r <= h_miss_m row) h
       /\ exists row, In row h /\ h_miss_m row = Dashboard.sum_min_miss_m r.
Proof.
  split; [apply default_run_rows|].
  exact (run_sim_summary default_fuel Dashboard.default_sliders
           (const_source 0.5) _ _ _ default_run_sim).
Defined.

Lemma dashboard_flight_time_witness :
  let w := default_run in
  (8 <= t_s (fst w) /\ (2 <= length (hist (fst w)))%nat)
  /\ exists r,
       Dashboard.summarise (hist (fst w)) = Some r
       /\ 0 <= t_s (fst w) - Dashboard.sum_t_s r <= 0.10.
Proof.
  split; [split; apply default_run_rows|].
  exact (dashboard_flight_time default_fuel Dashboard.default_sliders
           (const_source 0.5) _ default_run_fly).
Defined.

(** ** A run with two samples *)

Lemma two_tick_hist :
  exists a b,
    hist (fst (run default_params
                 (reset_state default_params, const_source 0.5)
                 [mkTick 1 0 0; mkTick 1 0 0])) = [a; b]
    /\ h_t_s a = 1 /\ h_t_s b = 2.
Proof.
  set (p := default_params).
  set (w1 := step_sim p (reset_state p) 1 0 0 (const_source 0.5)).
  change (run p (reset_state p, const_source 0.5) [mkTick 1 0 0; mkTick 1 0 0])
    with (step_sim p (fst w1) 1 0 0 (snd w1)).
  assert (Ha : alive (fst w1) = true)
    by (apply (default_first_step_alive 1 0 0); lra).
  assert (Ht : t_s (fst w1) = 1)
    by (unfold w1; rewrite step_sim_t by reflexivity; simpl; lra).
  destruct (first_tick_hist p (mkTick 1 0 0) (const_source 0.5))
    as [a [Eh Eta]].
  change (fst (run p (reset_state p, const_source 0.5) [mkTick 1 0 0]))
    with (fst w1) in Eh.
  simpl tk_dt in Eta.
  rewrite step_sim_hist by exact Ha; cbv zeta.
  set (s3 := update_energy p
               (after_kinematics p (fst w1) 1 0 0 (snd w1)) 1).
  assert (Ed : sample_due s3 = true).
  { apply sample_due_spec; right; exists a.
    change (hist s3) with (hist (fst w1)).
    change (t_s s3) with (t_s (fst w1) + 1).
    rewrite Eh, Ht, Eta; split; [reflexivity | lra]. }
  rewrite Ed, Eh.
  eexists; eexists; split; [reflexivity|].
  split; [exact Eta|].
  change (t_s (fst w1) + 1 = 2); rewrite Ht; lra.
Qed.

Lemma history_rate_bounded_witness :
  let h := hist (fst (run default_params
                        (reset_state default_params, const_source 0.5)
                        [mkTick 1 0 0; mkTick 1 0 0])) in
  exists f l,
    nth_error h 0 = Some f /\ hist_last h = Some l
    /\ length h = 2%nat /\ h_t_s f = 1 /\ h_t_s l = 2
    /\ INR (pred (length h)) * 0.10 <= h_t_s l - h_t_s f.
Proof.
  cbv zeta.
  destruct two_tick_hist as [a [b [E [Ea Eb]]]].
  exists a, b.
  assert (H0 : nth_error
                 (hist (fst (run default_params
                               (reset_state default_params, const_source 0.5)
                               [mkTick 1 0 0; mkTick 1 0 0]))) 0 = Some a)
    by (rewrite E; reflexivity).
  assert (Hl : hist_last
                 (hist (fst (run default_params
                               (reset_state default_params, const_source 0.5)
                               [mkTick 1 0 0; mkTick 1 0 0]))) = Some b)
    by (rewrite E; reflexivity).
  split; [exact H0|]. split; [exact Hl|].
  split; [rewrite E; reflexivity|]. split; [exact Ea|]. split; [exact Eb|].
  exact (history_rate_bounded default_params [mkTick 1 0 0; mkTick 1 0 0]
           (const_source 0.5) a b H0 Hl).
Defined.

(** * Rounding *)

(** ** The bank angle in binary64 *)

(** The first tick of the run below leaves the aircraft flying, so its
    second call is a live step too. *)
Lemma overshoot_first_tick_alive rng :
  alive (fst (step_sim overshoot_params (reset_state overshoot_params)
                sixth (-1) 0.5 rng)) = true.
Proof.
  destruct (step_sim_alt overshoot_params (reset_state overshoot_params)
              sixth (-1) 0.5 rng eq_refl) as [Hup _].
  cbv zeta in Hup; apply Hup.
  set (s1 := update_controls overshoot_params (reset_state overshoot_params)
               sixth (-1) 0.5).
  assert (Hv : v_air_mps s1 = 26) by reflexivity.
  pose proof (sink_rate_nonneg overshoot_params s1) as Hlo.
  pose proof (sink_rate_le overshoot_params s1) as Hhi.
  rewrite Hv in Hlo, Hhi; simpl in Hlo, Hhi.
  rewrite Rmax_right in Hhi by lra.
  assert (H0 : 0 <= sink_rate overshoot_params s1) by (apply Hlo; lra).
  assert (H1 : sink_rate overshoot_params s1 <= 26 * (1 + 0.30) * 1.35)
    by (apply Hhi; lra).
  assert (Hd : 0 <= sixth <= 1) by (unfold sixth; lra).
  assert (sink_rate overshoot_params s1 * sixth <= 26 * (1 + 0.30) * 1.35 * 1)
    by (apply Rmult_le_compat; lra).
  simpl alt_m; simpl ground_alt_m; lra.
Qed.

Module Rounding.
Import Floats.
Local Open Scope float_scope.

(** C9.  The claim fails in the program's arithmetic.  With
    [bank_max_deg = 40.00000000000001] and the default response rates,
    from the controls of [reset_state]: a first step with
    [dt = 0.16666666666666666], pitch input -1 and yaw input 0.5
    brings [pitch_cmd] to 0 and the bank to 6.666666666666668; a
    second step with [dt = 0.5] (blend factor 1) and yaw input 1 has
    bank target 40.00000000000001, and [bank + (target - bank) * 1]
    rounds to 40.000000000000014, above [bank_max_deg]. *)
Theorem bank_overshoots_bank_max :
  let p := F64.overshoot_params in
  let s1 := F64.update_controls p F64.reset_controls
              0x1.5555555555555p-3 (-1) 0x1p-1 in
  let s2 := F64.update_controls p s1 0x1p-1 0 1 in
  F64.pitch_cmd s1 = 0
  /\ F64.bank_deg s1 = 0x1.aaaaaaaaaaaacp+2
  /\ F64.yaw_eff s2 = 1
  /\ F64.bank_deg s2 = 0x1.4000000000002p+5
  /\ PrimFloat.ltb (F64.bank_max_deg p) (F64.bank_deg s2) = true.
Proof. vm_compute; repeat split; reflexivity. Qed.

End Rounding.
